(** * NetMonitor: the polling scheduler of [MonitorService]

    A shallow embedding of
    [netmonitor/src/app/services/monitor.service.ts],
    [ping.repository.ts] and the part of [settings.service.ts] the monitor
    reads, as an event-driven state machine over a virtual clock.

    JavaScript numbers that carry milliseconds are integers here ([Z]);
    the RxJS [Subscription] objects and the transport promises live in two
    stores indexed by allocation order, so that a stale timer or a stale
    promise can still be addressed after the service dropped its reference.
    The RxJS operators the service uses ([timer], [switchMap], [from],
    [map], [catchError]) are given the behaviour of RxJS 7 on the
    asynchronous scheduler: a timer never fires inside the call that
    subscribes to it, [switchMap] keeps one inner subscription, and an
    unsubscribed observer receives nothing. *)

From Stdlib Require Import ZArith QArith Qabs List String Bool Lia.
From stdpp Require Import base list strings sorting gmap.
Import ListNotations.

Local Open Scope string_scope.
Local Open Scope list_scope.
Local Open Scope Z_scope.

(** ** Data model *)

(** [status: 'ok' | 'error'] of [PingResult]. *)
Inductive Status : Type :=
| StatusOk
| StatusError.

(** [PingResult]: [latencyMs: number | null], [timestamp: Date] (epoch
    milliseconds), [status]. *)
Record PingResult : Type := mkPingResult {
  latencyMs : option Z;
  timestamp : Z;
  status : Status
}.

(** [MonitoringConfig] of [settings.interface.ts]. *)
Record MonitoringConfig : Type := mkMonitoringConfig {
  pingTarget : string;
  pingInterval : Z
}.

(** [Partial<MonitoringConfig>]: an absent key is [None]. *)
Record PartialMonitoringConfig : Type := mkPartialConfig {
  partial_pingTarget : option string;
  partial_pingInterval : option Z
}.

(** [DEFAULT_SETTINGS.monitoringConfig]. *)
Definition DEFAULT_monitoringConfig : MonitoringConfig :=
  {| pingTarget := "8.8.8.8"; pingInterval := 5 |}.

(** The object spread [{ ...current.monitoringConfig, ...config }] of
    [updateMonitoringConfig]. *)
Definition merge_config (current : MonitoringConfig)
    (config : PartialMonitoringConfig) : MonitoringConfig :=
  {| pingTarget := default (pingTarget current) (partial_pingTarget config);
     pingInterval := default (pingInterval current) (partial_pingInterval config) |}.

(** One [console.error(message, err)] call. *)
Definition ConsoleEntry : Type := (string * string)%type.

(** A value together with what was written to the console on the way. *)
Definition Logged (A : Type) : Type := (A * list ConsoleEntry)%type.

(** ** [Array.prototype.slice(start)] *)

(** A negative [start] counts from the end and is clamped at 0; a positive
    one is clamped at the length. *)
Definition slice {A : Type} (start : Z) (l : list A) : list A :=
  let len := Z.of_nat (length l) in
  let k := if start <? 0 then Z.max (len + start) 0 else Z.min start len in
  drop (Z.to_nat k) l.

(** The history update of the subscriber: [[...current, result].slice(-50)]. *)
Definition push_result (current : list PingResult) (result : PingResult)
    : list PingResult :=
  slice (-50) (current ++ [result]).

(** ** Promises and single-value observables *)

(** How a promise settles. *)
Inductive Settled (A : Type) : Type :=
| Resolved (a : A)
| Rejected (e : string).
Arguments Resolved {A} a.
Arguments Rejected {A} e.

(** What an observable built from one promise delivers to its subscriber:
    one value followed by completion, or an error. *)
Inductive Notification (A : Type) : Type :=
| Next (a : A)
| Error (e : string).
Arguments Next {A} a.
Arguments Error {A} e.

(** [from(promise)]. *)
Definition from {A : Type} (p : Settled A) : Notification A :=
  match p with
  | Resolved a => Next a
  | Rejected e => Error e
  end.

(** [map(project)]. *)
Definition map_op {A B : Type} (project : A -> B) (n : Notification A)
    : Notification B :=
  match n with
  | Next a => Next (project a)
  | Error e => Error e
  end.

(** [catchError(selector)]: the selector runs on an error only, and what it
    logs is appended to the console. *)
Definition catchError {A : Type} (selector : string -> Logged (Notification A))
    (n : Logged (Notification A)) : Logged (Notification A) :=
  match n with
  | (Next a, out) => (Next a, out)
  | (Error e, out) =>
      let '(n', out') := selector e in (n', out ++ out')
  end.

(** [{ latencyMs: null, timestamp: new Date(), status: 'error' }]. *)
Definition error_result (now : Z) : PingResult :=
  {| latencyMs := None; timestamp := now; status := StatusError |}.

(** ** The probe: [measureLatency] and [measureWebLatency] *)

(** The transport a probe went through: [tauriService.invoke('ping', ...)],
    [CapacitorHttp.request] or [fetch]. *)
Inductive Transport : Type :=
| TauriInvoke
| CapacitorHttpRequest
| Fetch.

(** The capability check of [measureLatency] and [measureWebLatency]. *)
Definition select_transport (isTauri isNativePlatform : bool) : Transport :=
  if isTauri then TauriInvoke
  else if isNativePlatform then CapacitorHttpRequest else Fetch.

(** [measureWebLatency] once its request settled: [start] is the
    [Date.now()] taken at the call, [now] the clock when the request
    settled.  A rejection is logged and thrown again. *)
Definition measureWebLatency (start now : Z) (response : Settled Z)
    : Logged (Settled PingResult) :=
  match response with
  | Resolved _ =>
      (Resolved {| latencyMs := Some (now - start); timestamp := now;
                   status := StatusOk |}, [])
  | Rejected e => (Rejected e, [("Latency measurement failed", e)])
  end.

(** What [measureLatency]'s observable delivers when the transport promise
    settles with [response] at time [now].  On Tauri the payload of the
    response is [res.latency_ms]; a HEAD request's response is not read. *)
Definition measureLatency (via : Transport) (start now : Z)
    (response : Settled Z) : Logged (Notification PingResult) :=
  match via with
  | TauriInvoke =>
      catchError
        (fun err => (Next (error_result now), [("Tauri ping error:", err)]))
        (map_op (fun latency_ms =>
                   {| latencyMs := Some latency_ms; timestamp := now;
                      status := StatusOk |})
                (from response), [])
  | _ =>
      let '(p, out) := measureWebLatency start now response in
      catchError
        (fun err => (Next (error_result now), [("Web/Capacitor ping error:", err)]))
        (from p, out)
  end.

(** The Measurement invariant: latency is present iff the outcome is Ok. *)
Definition measurement_ok (r : PingResult) : Prop :=
  is_Some (latencyMs r) <-> status r = StatusOk.

(** ** The persistence repository: [PingRepository.savePing] *)

(** The parameter array of the INSERT: [timestamp.getTime()], [latencyMs],
    the success flag and the target. *)
Definition Row : Type := (Z * option Z * Z * string)%type.

(** [DatabaseService] as the repository sees it: the [isInitialized] flag,
    how [execute] settles for a given row, and the rows written so far. *)
Record DatabaseService : Type := mkDatabaseService {
  isInitialized : bool;
  execute : Row -> Settled unit;
  table : list Row
}.

(** [async savePing(result, target)]: the database after the call and the
    way the returned promise settles, with what the [catch] logged. *)
Definition savePing (database : DatabaseService) (result : PingResult)
    (target : string) : DatabaseService * Logged (Settled unit) :=
  if negb (isInitialized database) then (database, (Resolved tt, []))
  else
    let row : Row :=
      (timestamp result, latencyMs result,
       match status result with StatusOk => 1 | StatusError => 0 end,
       target) in
    match execute database row with
    | Resolved _ =>
        ({| isInitialized := isInitialized database;
            execute := execute database;
            table := table database ++ [row] |}, (Resolved tt, []))
    | Rejected err =>
        (database, (Resolved tt, [("Failed to persist ping:", err)]))
    end.

(** ** The stores *)

(** The subscription returned by [timer(0, interval).pipe(switchMap(...),
    catchError(...)).subscribe(...)]. *)
Record Subscription : Type := mkSubscription {
  closed : bool;        (* unsubscribed, or the stream completed *)
  period : Z;           (* the timer's interval *)
  due : option Z;       (* when the timer fires next; [None] once it completed *)
  inner : option nat    (* the probe [switchMap] is subscribed to *)
}.

(** One call of the transport and its promise. *)
Record Probe : Type := mkProbe {
  transport : Transport;
  url : string;         (* the target the request was made to *)
  started : Z;          (* the clock at the call *)
  owner : nat;          (* the subscription whose tick made the call *)
  pending : bool        (* the promise has not settled yet *)
}.

(** The service with its collaborators.  [results] and [isMonitoring] are
    the current values of the two [BehaviorSubject]s, whose subscribers are
    outside the model; [probes] and [savePing_calls] record the calls made
    on the transport and on the repository, in call order. *)
Record State : Type := mkState {
  now : Z;
  isTauri : bool;
  isNativePlatform : bool;
  settings : MonitoringConfig;
  pollingSubscription : option nat;
  results : list PingResult;
  isMonitoring : bool;
  subscriptions : list Subscription;
  probes : list Probe;
  savePing_calls : list (PingResult * string);
  db : DatabaseService;
  console : list ConsoleEntry
}.

Definition set_now (t : Z) (s : State) : State :=
  mkState t (isTauri s) (isNativePlatform s) (settings s)
    (pollingSubscription s) (results s) (isMonitoring s) (subscriptions s)
    (probes s) (savePing_calls s) (db s) (console s).

Definition set_settings (c : MonitoringConfig) (s : State) : State :=
  mkState (now s) (isTauri s) (isNativePlatform s) c
    (pollingSubscription s) (results s) (isMonitoring s) (subscriptions s)
    (probes s) (savePing_calls s) (db s) (console s).

Definition set_pollingSubscription (p : option nat) (s : State) : State :=
  mkState (now s) (isTauri s) (isNativePlatform s) (settings s)
    p (results s) (isMonitoring s) (subscriptions s)
    (probes s) (savePing_calls s) (db s) (console s).

Definition set_results (r : list PingResult) (s : State) : State :=
  mkState (now s) (isTauri s) (isNativePlatform s) (settings s)
    (pollingSubscription s) r (isMonitoring s) (subscriptions s)
    (probes s) (savePing_calls s) (db s) (console s).

Definition set_isMonitoring (b : bool) (s : State) : State :=
  mkState (now s) (isTauri s) (isNativePlatform s) (settings s)
    (pollingSubscription s) (results s) b (subscriptions s)
    (probes s) (savePing_calls s) (db s) (console s).

Definition set_subscriptions (l : list Subscription) (s : State) : State :=
  mkState (now s) (isTauri s) (isNativePlatform s) (settings s)
    (pollingSubscription s) (results s) (isMonitoring s) l
    (probes s) (savePing_calls s) (db s) (console s).

Definition set_probes (l : list Probe) (s : State) : State :=
  mkState (now s) (isTauri s) (isNativePlatform s) (settings s)
    (pollingSubscription s) (results s) (isMonitoring s) (subscriptions s)
    l (savePing_calls s) (db s) (console s).

Definition set_savePing_calls (l : list (PingResult * string)) (s : State)
    : State :=
  mkState (now s) (isTauri s) (isNativePlatform s) (settings s)
    (pollingSubscription s) (results s) (isMonitoring s) (subscriptions s)
    (probes s) l (db s) (console s).

Definition set_db (d : DatabaseService) (s : State) : State :=
  mkState (now s) (isTauri s) (isNativePlatform s) (settings s)
    (pollingSubscription s) (results s) (isMonitoring s) (subscriptions s)
    (probes s) (savePing_calls s) d (console s).

Definition set_console (c : list ConsoleEntry) (s : State) : State :=
  mkState (now s) (isTauri s) (isNativePlatform s) (settings s)
    (pollingSubscription s) (results s) (isMonitoring s) (subscriptions s)
    (probes s) (savePing_calls s) (db s) c.

(** The service as constructed: clock at 0, empty history, not monitoring,
    no subscription ever made. *)
Definition init (tauri native : bool) (config : MonitoringConfig)
    (database : DatabaseService) : State :=
  mkState 0 tauri native config None [] false [] [] [] database [].

(** ** [MonitorService] *)

(** [get pingTarget()]. *)
Definition get_pingTarget (s : State) : string := pingTarget (settings s).

(** [get pingIntervalMs()]. *)
Definition get_pingIntervalMs (s : State) : Z := pingInterval (settings s) * 1000.

(** [Subscription.unsubscribe()]: the timer is cleared and the inner
    subscription of [switchMap] goes with it. *)
Definition unsubscribe (sub : Subscription) : Subscription :=
  {| closed := true; period := period sub; due := None; inner := None |}.

(** [stopMonitoring()]. *)
Definition stopMonitoring (s : State) : State :=
  let s1 :=
    match pollingSubscription s with
    | Some id =>
        set_pollingSubscription None
          (set_subscriptions (alter unsubscribe id (subscriptions s)) s)
    | None => s
    end in
  set_isMonitoring false s1.

(** [intervalMs ?? this.pingIntervalMs]. *)
Definition resolve_interval (intervalMs : option Z) (s : State) : Z :=
  match intervalMs with
  | Some i => i
  | None => get_pingIntervalMs s
  end.

(** [startMonitoring(intervalMs?)]: the new subscription is allocated with
    its timer due after 0 ms, that is at the current clock; nothing is
    emitted inside the call. *)
Definition startMonitoring (intervalMs : option Z) (s : State) : State :=
  let s1 := set_isMonitoring true (stopMonitoring s) in
  let interval := resolve_interval intervalMs s1 in
  let id := length (subscriptions s1) in
  set_pollingSubscription (Some id)
    (set_subscriptions
       (subscriptions s1 ++
          [{| closed := false; period := interval; due := Some (now s1 + 0);
              inner := None |}])
       s1).

(** The subscriber of the pipeline: push into the history, keep the last
    50, hand the result to the repository with the target read at this
    moment.  The promise [savePing] returns is not awaited. *)
Definition on_result (result : PingResult) (s : State) : State :=
  let current := results s in
  let updated := push_result current result in
  let s1 := set_results updated s in
  let target := get_pingTarget s1 in
  let '(database, (_, out)) := savePing (db s1) result target in
  set_console (console s1 ++ out)
    (set_db database
       (set_savePing_calls (savePing_calls s1 ++ [(result, target)]) s1)).

(** The longest delay the timer behind [timer(0, interval)] takes: the
    delay of [setInterval] is a signed 32-bit number of milliseconds. *)
Definition TIMEOUT_MAX : Z := 2147483647.

(** The delay the timer runs with for a given interval: an interval
    beyond [TIMEOUT_MAX] is run as 1 ms. *)
Definition timer_delay (interval : Z) : Z :=
  if TIMEOUT_MAX <? interval then 1 else interval.

(** One emission of the timer of subscription [id]: [switchMap] drops its
    inner subscription and subscribes to a fresh [measureLatency()], which
    calls the transport with the target read now; then the timer is
    scheduled again, with the delay it has for the interval, when the
    interval is not negative, and completes otherwise. *)
Definition tick (id : nat) (sub : Subscription) (t : Z) (s : State) : State :=
  let probe :=
    {| transport := select_transport (isTauri s) (isNativePlatform s);
       url := get_pingTarget s; started := now s; owner := id;
       pending := true |} in
  let pid := length (probes s) in
  set_subscriptions
    (<[id := {| closed := false; period := period sub;
                due := if 0 <=? period sub
                       then Some (t + timer_delay (period sub)) else None;
                inner := Some pid |}]> (subscriptions s))
    (set_probes (probes s ++ [probe]) s).

(** The timer of subscription [id] fires if the subscription is open and
    its due time has been reached. *)
Definition fire (s : State) (id : nat) : State :=
  match subscriptions s !! id with
  | Some sub =>
      if closed sub then s
      else
        match due sub with
        | Some t => if t <=? now s then tick id sub t s else s
        | None => s
        end
  | None => s
  end.

(** All timers that are due at the current clock fire once, in the order
    they were created. *)
Definition run_timers (s : State) : State :=
  fold_left fire (seq 0 (length (subscriptions s))) s.

(** The clock moves on millisecond by millisecond, the due timers firing
    at each one. *)
Fixpoint elapse (n : nat) (s : State) : State :=
  match n with
  | O => s
  | S k => elapse k (run_timers (set_now (now s + 1) s))
  end.

(** Time passes for [ms] milliseconds, the timers due at the starting clock
    firing first. *)
Definition advance (ms : Z) (s : State) : State :=
  elapse (Z.to_nat ms) (run_timers s).

(** The promise is marked as settled. *)
Definition settled_probe (pr : Probe) : Probe :=
  {| transport := transport pr; url := url pr; started := started pr;
     owner := owner pr; pending := false |}.

(** The inner observable completed after its value: [switchMap] forgets it,
    and the whole stream completes if the timer had completed before. *)
Definition inner_complete (sub : Subscription) : Subscription :=
  {| closed := match due sub with Some _ => false | None => true end;
     period := period sub; due := due sub; inner := None |}.

(** What the console gets from a promise nobody listens to any more: the
    [catch] inside [measureWebLatency] still runs. *)
Definition unobserved_log (pr : Probe) (now : Z) (response : Settled Z)
    : list ConsoleEntry :=
  match transport pr with
  | TauriInvoke => []
  | _ => snd (measureWebLatency (started pr) now response)
  end.

(** The promise of probe [p] settles with [response].  A promise settles
    once.  Its value reaches the subscriber only if the subscription that
    made the call is open and [switchMap] still listens to this probe.  An
    error notification out of [measureLatency] would go to the outer
    [catchError], which logs it, emits one error result and ends the
    stream. *)
Definition settle (p : nat) (response : Settled Z) (s : State) : State :=
  match probes s !! p with
  | Some pr =>
      if pending pr then
        let s1 := set_probes (<[p := settled_probe pr]> (probes s)) s in
        match subscriptions s1 !! owner pr with
        | Some sub =>
            if negb (closed sub) && bool_decide (inner sub = Some p) then
              let '(n, out) :=
                measureLatency (transport pr) (started pr) (now s1) response in
              let s2 := set_console (console s1 ++ out) s1 in
              match n with
              | Next result =>
                  let s3 := on_result result s2 in
                  set_subscriptions
                    (alter inner_complete (owner pr) (subscriptions s3)) s3
              | Error err =>
                  let s3 :=
                    set_console (console s2 ++ [("Monitoring error:", err)]) s2 in
                  let s4 := on_result (error_result (now s3)) s3 in
                  set_subscriptions
                    (alter unsubscribe (owner pr) (subscriptions s4)) s4
              end
            else
              set_console (console s1 ++ unobserved_log pr (now s1) response) s1
        | None => s1
        end
      else s
  | None => s
  end.

(** [SettingsService.updateMonitoringConfig(config)] once the repository
    stored the value: the new settings become the current ones. *)
Definition updateMonitoringConfig (config : PartialMonitoringConfig)
    (s : State) : State :=
  set_settings (merge_config (settings s) config) s.

(** ** Runs *)

(** What can happen to the service: a caller starts or stops it, time
    passes, the promise of a probe settles, the settings page stores a new
    configuration. *)
Inductive Event : Type :=
| StartMonitoring (intervalMs : option Z)
| StopMonitoring
| Advance (ms : Z)
| Settle (probe : nat) (response : Settled Z)
| UpdateMonitoringConfig (config : PartialMonitoringConfig).

Definition step (s : State) (e : Event) : State :=
  match e with
  | StartMonitoring intervalMs => startMonitoring intervalMs s
  | StopMonitoring => stopMonitoring s
  | Advance ms => advance ms s
  | Settle p response => settle p response s
  | UpdateMonitoringConfig config => updateMonitoringConfig config s
  end.

Definition run (events : list Event) (s : State) : State :=
  fold_left step events s.

(** The measurements handed to the subscriber so far, in order: the first
    argument of every [savePing] call. *)
Definition pushed (s : State) : list PingResult := map fst (savePing_calls s).

(** A database whose every write is rejected with [err]. *)
Definition failing_db (err : string) : DatabaseService :=
  {| isInitialized := true; execute := fun _ => Rejected err; table := [] |}.

(** A database whose every write succeeds. *)
Definition working_db : DatabaseService :=
  {| isInitialized := true; execute := fun _ => Resolved tt; table := [] |}.

(** ** Predicates and scenarios of the proofs *)

(** Projections of updated states. *)
Ltac state_fields :=
  cbn [now isTauri isNativePlatform settings pollingSubscription results
       isMonitoring subscriptions probes savePing_calls db console
       set_now set_settings set_pollingSubscription set_results
       set_isMonitoring set_subscriptions set_probes set_savePing_calls
       set_db set_console].

(** Everything but the clock, the timers' due times and the record of the
    probes made. *)
Definition timer_frame (s s' : State) : Prop :=
  results s' = results s /\
  savePing_calls s' = savePing_calls s /\
  db s' = db s /\
  console s' = console s /\
  pollingSubscription s' = pollingSubscription s /\
  settings s' = settings s /\
  isMonitoring s' = isMonitoring s /\
  isTauri s' = isTauri s /\
  isNativePlatform s' = isNativePlatform s /\
  closed <$> subscriptions s' = closed <$> subscriptions s /\
  exists made, probes s' = probes s ++ made.

(** Subscription [id] exists and is open. *)
Definition open_at (s : State) (id : nat) : Prop :=
  (closed <$> subscriptions s) !! id = Some false.

Record invariant (s : State) : Prop := mkInvariant {
  inv_history : results s = slice (-50) (pushed s);
  inv_measurements : Forall measurement_ok (pushed s);
  inv_single : forall id, open_at s id -> pollingSubscription s = Some id
}.

(** Subscription [id] exists and is open, as a test. *)
Definition is_open (s : State) (id : nat) : bool :=
  match subscriptions s !! id with
  | Some sub => negb (closed sub)
  | None => false
  end.

(** The identifiers of the polling loops that are active. *)
Definition open_ids (s : State) : list nat :=
  List.filter (is_open s) (seq 0 (length (subscriptions s))).

Definition is_start (e : Event) : bool :=
  match e with
  | StartMonitoring _ => true
  | _ => false
  end.

(** The scheduler is Idle. *)
Definition idle (s : State) : Prop :=
  pollingSubscription s = None /\ isMonitoring s = false.

(** Idle, and every subscription ever made is closed. *)
Definition quiescent (s : State) : Prop :=
  idle s /\ forall id, is_open s id = false.

(** What no event but a start changes once the service is quiescent. *)
Definition at_rest (s s' : State) : Prop :=
  results s' = results s /\
  savePing_calls s' = savePing_calls s /\
  length (probes s') = length (probes s) /\
  subscriptions s' = subscriptions s /\
  db s' = db s.

(** The same service over another database and another console. *)
Definition with_storage (d : DatabaseService) (c : list ConsoleEntry)
    (s : State) : State :=
  set_console c (set_db d s).

(** The target changes while the first probe is in flight. *)
Definition target_change_in_flight : list Event :=
  [StartMonitoring (Some 1000);
   Advance 0;
   UpdateMonitoringConfig
     {| partial_pingTarget := Some "1.1.1.1"; partial_pingInterval := None |};
   Settle 0 (Resolved 42)].

(** Modelled from the spec: the sequence the Statistics Engine works on
    (the home page that computes the statistics is not among the sources),
    the latencies of the Ok measurements in time order. *)
Definition ok_latencies (history : list PingResult) : list Z :=
  omap (fun r => match status r with
                 | StatusOk => latencyMs r
                 | StatusError => None
                 end) history.

(** Modelled from the spec: the jitter of the Statistics Engine (the
    component that computes it, the home page, is not among the sources;
    only its test is).  One update of the running estimate for the
    consecutive latencies [previous] and [latency]:
    [D = |L[i] - L[i-1]|], [J += (D - J) / 16]. *)
Definition jitter_update (J : Q) (previous latency : Z) : Q :=
  (J + (Qabs (inject_Z latency - inject_Z previous) - J) / 16)%Q.

(** Modelled from the spec: the running estimate carried along the Ok
    latencies that follow [previous]. *)
Fixpoint jitter_from (J : Q) (previous : Z) (latencies : list Z) : Q :=
  match latencies with
  | [] => J
  | latency :: rest =>
      jitter_from (jitter_update J previous latency) latency rest
  end.

(** Modelled from the spec: the reported jitter, [J = 0] before the first
    difference, and 0 when there is no Ok measurement. *)
Definition jitter (history : list PingResult) : Q :=
  match ok_latencies history with
  | [] => 0%Q
  | first :: rest => jitter_from 0%Q first rest
  end.

(** An Ok measurement with the given latency. *)
Definition ok_measurement (latency : Z) : PingResult :=
  {| latencyMs := Some latency; timestamp := 0; status := StatusOk |}.

(** Subscription [id] is [sub], it is open, and no other one is. *)
Definition sole_loop (s : State) (id : nat) (sub : Subscription) : Prop :=
  subscriptions s !! id = Some sub /\ closed sub = false /\
  forall id', is_open s id' = true -> id' = id.

(** The probe a tick of subscription [id] makes at [time]. *)
Definition probe_at (s : State) (id : nat) (time : Z) : Probe :=
  {| transport := select_transport (isTauri s) (isNativePlatform s);
     url := get_pingTarget s; started := time; owner := id; pending := true |}.

(** The subscription after its tick at [t]. *)
Definition rearmed (sub : Subscription) (t : Z) (pid : nat) : Subscription :=
  {| closed := false; period := period sub;
     due := if 0 <=? period sub then Some (t + timer_delay (period sub))
            else None;
     inner := Some pid |}.

(** The instants [t], [t + P], [t + 2P], ... up to [hi]. *)
Definition tick_times (t P hi : Z) : list Z :=
  map (fun k => t + Z.of_nat k * P) (seq 0 (Z.to_nat ((hi - t) / P + 1))).

(** The events that tear a loop down. *)
Definition halting (e : Event) : bool :=
  match e with
  | StartMonitoring _ | StopMonitoring => true
  | _ => false
  end.

(** The loop of subscription [id] is running: open, periodic, its timer
    set. *)
Definition armed (s : State) (id : nat) : Prop :=
  exists sub,
    subscriptions s !! id = Some sub /\ closed sub = false /\
    0 <= period sub /\ is_Some (due sub).

(** Three probes fail and the fourth succeeds, each settling [d] ms after
    its tick and before the next one. *)
Definition three_failures_then_success (P d0 d1 d2 d3 : Z) (e0 e1 e2 : string)
    (payload : Z) : list Event :=
  [StartMonitoring (Some P);
   Advance d0; Settle 0 (Rejected e0);
   Advance (P - d0 + d1); Settle 1 (Rejected e1);
   Advance (P - d1 + d2); Settle 2 (Rejected e2);
   Advance (P - d2 + d3); Settle 3 (Resolved payload)].

(** Three probes fail after the next tick has already replaced them, then
    the fourth succeeds. *)
Definition three_slow_failures_then_success : list Event :=
  [StartMonitoring (Some 1000);
   Advance 1500; Settle 0 (Rejected "timeout");
   Advance 1000; Settle 1 (Rejected "timeout");
   Advance 1000; Settle 2 (Rejected "timeout");
   Settle 3 (Resolved 20)].

(** The single loop, of period [P], ticked last at [T]; the probe of that
    tick is number [pid], still pending and listened to; the next tick is
    not due yet. *)
Definition loop_state (s : State) (pid : nat) (P T : Z) : Prop :=
  sole_loop s 0
    {| closed := false; period := P; due := Some (T + P); inner := Some pid |} /\
  length (probes s) = S pid /\
  (exists pr, probes s !! pid = Some pr /\ pending pr = true /\ owner pr = 0%nat) /\
  T <= now s < T + P.

(** The outcome of a probe as a status. *)
Definition status_of (response : Settled Z) : Status :=
  match response with
  | Resolved _ => StatusOk
  | Rejected _ => StatusError
  end.

(** ** Further predicates on runs *)

(** The parameter array [savePing] builds for one call. *)
Definition to_row (call : PingResult * string) : Row :=
  (timestamp (fst call), latencyMs (fst call),
   match status (fst call) with StatusOk => 1 | StatusError => 0 end,
   snd call).

(** The database after one [savePing] call. *)
Definition persist (database : DatabaseService) (call : PingResult * string)
    : DatabaseService :=
  fst (savePing database (fst call) (snd call)).

(** A stored row is coherent: the success flag is 0 or 1, and it is 1
    exactly when a latency is stored. *)
Definition row_coherent (row : Row) : Prop :=
  let '(_, latency, success, _) := row in
  (success = 1 /\ is_Some latency) \/ (success = 0 /\ latency = None).

(** The probes whose promise has settled. *)
Definition settled_count (s : State) : nat :=
  length (filter (fun pr => pending pr = false) (probes s)).

(** No open subscription listens to a probe made before the [n]-th. *)
Definition listens_from (n : nat) (s : State) : Prop :=
  (n <= length (probes s))%nat /\
  forall id sub q,
    subscriptions s !! id = Some sub -> closed sub = false ->
    inner sub = Some q -> (n <= q)%nat.

(** The timestamps of [l] never decrease and none is later than [t]. *)
Definition time_ordered (l : list PingResult) (t : Z) : Prop :=
  StronglySorted (fun earlier later => timestamp earlier <= timestamp later) l /\
  Forall (fun r => timestamp r <= t) l.

(** On the web transports every probe went through a HEAD request and
    started no later than the clock. *)
Definition web_probes_ok (s : State) : Prop :=
  isTauri s = false /\
  Forall (fun pr => transport pr <> TauriInvoke /\ started pr <= now s)
    (probes s).

(** The measurement is failed, or it carries the time that passed since
    the start of one of the probes of [s]. *)
Definition latency_is_elapsed (s : State) (r : PingResult) : Prop :=
  status r = StatusError \/
  exists t0, t0 ∈ map started (probes s) /\
             latencyMs r = Some (timestamp r - t0) /\
             0 <= timestamp r - t0.

(** The console line of a failed write. *)
Definition persist_failure (entry : ConsoleEntry) : Prop :=
  fst entry = "Failed to persist ping:".

(** * The settings: [settings.interface.ts], [ping-targets.constant.ts],
    [settings.repository.ts], [settings.service.ts], [settings.page.ts] *)

Module Settings.

(** ** [settings.interface.ts] *)

Record RegionConfig : Type := mkRegionConfig {
  countryCode : string;
  countryName : string;
  regulatoryBody : string;
  consumerProtection : string;
  applicableLaw : string
}.

Record Geolocation : Type := mkGeolocation {
  latitude : Q;
  longitude : Q
}.

(** [geolocation?] is [None] when the key is absent. *)
Record UserInfo : Type := mkUserInfo {
  name : string;
  document : string;
  documentType : string;
  address : string;
  phone : string;
  geolocation : option Geolocation
}.

(** [contractedSpeed: number | null], [connectionType: string | null]. *)
Record ConnectionInfo : Type := mkConnectionInfo {
  providerName : string;
  planName : string;
  contractedSpeed : option Z;
  connectionType : option string;
  contractNumber : string
}.

Record AppSettings : Type := mkAppSettings {
  monitoringConfig : MonitoringConfig;
  region : RegionConfig;
  userInfo : UserInfo;
  connectionInfo : ConnectionInfo
}.

(** [Partial<RegionConfig>], [Partial<UserInfo>],
    [Partial<ConnectionInfo>]: an absent key is [None]. *)
Record PartialRegionConfig : Type := mkPartialRegion {
  partial_countryCode : option string;
  partial_countryName : option string;
  partial_regulatoryBody : option string;
  partial_consumerProtection : option string;
  partial_applicableLaw : option string
}.

Record PartialUserInfo : Type := mkPartialUserInfo {
  partial_name : option string;
  partial_document : option string;
  partial_documentType : option string;
  partial_address : option string;
  partial_phone : option string;
  partial_geolocation : option Geolocation
}.

Record PartialConnectionInfo : Type := mkPartialConnectionInfo {
  partial_providerName : option string;
  partial_planName : option string;
  partial_contractedSpeed : option (option Z);
  partial_connectionType : option (option string);
  partial_contractNumber : option string
}.

(** [DEFAULT_SETTINGS]. *)
Definition DEFAULT_SETTINGS : AppSettings :=
  {| monitoringConfig := DEFAULT_monitoringConfig;
     region := {| countryCode := "BR"; countryName := "Brasil";
                  regulatoryBody := "Anatel"; consumerProtection := "PROCON";
                  applicableLaw := "Marco Civil da Internet" |};
     userInfo := {| name := ""; document := ""; documentType := "CPF";
                    address := ""; phone := ""; geolocation := None |};
     connectionInfo := {| providerName := ""; planName := "";
                          contractedSpeed := None; connectionType := None;
                          contractNumber := "" |} |}.

(** The spreads [{ ...current.region, ...region }],
    [{ ...current.userInfo, ...userInfo }] and
    [{ ...current.connectionInfo, ...connectionInfo }]. *)
Definition merge_region (current : RegionConfig) (p : PartialRegionConfig)
    : RegionConfig :=
  {| countryCode := default (countryCode current) (partial_countryCode p);
     countryName := default (countryName current) (partial_countryName p);
     regulatoryBody := default (regulatoryBody current) (partial_regulatoryBody p);
     consumerProtection :=
       default (consumerProtection current) (partial_consumerProtection p);
     applicableLaw := default (applicableLaw current) (partial_applicableLaw p) |}.

Definition merge_userInfo (current : UserInfo) (p : PartialUserInfo) : UserInfo :=
  {| name := default (name current) (partial_name p);
     document := default (document current) (partial_document p);
     documentType := default (documentType current) (partial_documentType p);
     address := default (address current) (partial_address p);
     phone := default (phone current) (partial_phone p);
     geolocation :=
       match partial_geolocation p with
       | Some g => Some g
       | None => geolocation current
       end |}.

Definition merge_connectionInfo (current : ConnectionInfo)
    (p : PartialConnectionInfo) : ConnectionInfo :=
  {| providerName := default (providerName current) (partial_providerName p);
     planName := default (planName current) (partial_planName p);
     contractedSpeed :=
       default (contractedSpeed current) (partial_contractedSpeed p);
     connectionType :=
       default (connectionType current) (partial_connectionType p);
     contractNumber :=
       default (contractNumber current) (partial_contractNumber p) |}.

(** A complete section passed where a partial one is expected. *)
Definition whole_monitoringConfig (c : MonitoringConfig)
    : PartialMonitoringConfig :=
  {| partial_pingTarget := Some (pingTarget c);
     partial_pingInterval := Some (pingInterval c) |}.

(** [{ pingTarget: value }] and [{ pingInterval: value }]. *)
Definition only_pingTarget (value : string) : PartialMonitoringConfig :=
  {| partial_pingTarget := Some value; partial_pingInterval := None |}.

Definition only_pingInterval (value : Z) : PartialMonitoringConfig :=
  {| partial_pingTarget := None; partial_pingInterval := Some value |}.

(** What the spread of [undefined] contributes: nothing. *)
Definition no_monitoringConfig : PartialMonitoringConfig :=
  {| partial_pingTarget := None; partial_pingInterval := None |}.

Definition no_region : PartialRegionConfig :=
  mkPartialRegion None None None None None.

Definition no_userInfo : PartialUserInfo :=
  mkPartialUserInfo None None None None None None.

Definition no_connectionInfo : PartialConnectionInfo :=
  mkPartialConnectionInfo None None None None None.

(** ** [ping-targets.constant.ts] *)

Record PingTargetOption : Type := mkPingTargetOption {
  label : string;
  value : string
}.

Definition PING_TARGET_OPTIONS : list PingTargetOption :=
  [ {| label := "Google DNS (8.8.8.8)"; value := "8.8.8.8" |};
    {| label := "Cloudflare DNS (1.1.1.1)"; value := "1.1.1.1" |};
    {| label := "Quad9 DNS (9.9.9.9)"; value := "9.9.9.9" |};
    {| label := "OpenDNS (208.67.222.222)"; value := "208.67.222.222" |};
    {| label := "Google Web"; value := "www.google.com" |};
    {| label := "Cloudflare Web"; value := "www.cloudflare.com" |} ].

(** ** [settings.repository.ts] *)

(** A line written to the console. *)
Inductive ConsoleLine : Type :=
| console_error (message err : string)
| console_warn (message : string)
| console_log (message : string).

(** [DatabaseService] as the settings repository sees it: the
    [isInitialized] flag; how [execute] settles for the INSERT OR REPLACE
    of a key and a JSON text; how the two SELECTs settle, the one for the
    value of a key and the one for all rows; and the parameters of the
    [execute] calls made so far. *)
Record SettingsDatabase : Type := mkSettingsDatabase {
  isInitialized : bool;
  execute : string -> string -> Settled unit;
  select_value : string -> Settled (list string);
  select_all : Settled (list (string * string));
  executed : list (string * string)
}.

(** The value handed to [setSetting] by the service. *)
Inductive SettingValue : Type :=
| MonitoringValue (c : MonitoringConfig)
| RegionValue (r : RegionConfig)
| UserInfoValue (u : UserInfo)
| ConnectionInfoValue (c : ConnectionInfo).

Section Repository.

(** What [JSON.parse] returns, the function itself ([inr] is the error
    it throws), [JSON.stringify] on the values the service stores, and
    the four casts [stored[KEY] as Partial<...>] of the service. *)
Variable Json : Type.
Variable JSON_parse : string -> Json + string.
Variable JSON_stringify : SettingValue -> string.
Variable as_monitoringConfig : Json -> PartialMonitoringConfig.
Variable as_region : Json -> PartialRegionConfig.
Variable as_userInfo : Json -> PartialUserInfo.
Variable as_connectionInfo : Json -> PartialConnectionInfo.

(** [async getSetting<T>(key)]: the value the promise is fulfilled with
    ([None] for [null]) and what was logged. *)
Definition getSetting (db : SettingsDatabase) (key : string)
    : option Json * list ConsoleLine :=
  if negb (isInitialized db) then (None, [])
  else
    let failed err :=
      (None,
       [console_error
          (String.append "SettingsRepository: Failed to get setting '"
             (String.append key "':")) err]) in
    match select_value db key with
    | Resolved rows =>
        match rows with
        | [] => (None, [])
        | first :: _ =>
            match JSON_parse first with
            | inl parsed => (Some parsed, [])
            | inr err => failed err
            end
        end
    | Rejected err => failed err
    end.

(** [async setSetting<T>(key, value)]: the database after the call, how
    the promise settles and what was logged. *)
Definition setSetting (db : SettingsDatabase) (key : string)
    (v : SettingValue)
    : SettingsDatabase * (Settled unit * list ConsoleLine) :=
  if negb (isInitialized db) then (db, (Resolved tt, []))
  else
    let text := JSON_stringify v in
    let db' :=
      {| isInitialized := isInitialized db; execute := execute db;
         select_value := select_value db; select_all := select_all db;
         executed := executed db ++ [(key, text)] |} in
    match execute db key text with
    | Resolved _ => (db', (Resolved tt, []))
    | Rejected err =>
        (db', (Resolved tt,
               [console_error
                  (String.append "SettingsRepository: Failed to set setting '"
                     (String.append key "':")) err]))
    end.

(** One turn of the loop of [getAllSettings]: [result[row.key] =
    JSON.parse(row.value)], a row that does not parse being skipped with
    a warning.  The map holds the own properties of [result].  Assigning
    to the key [__proto__] creates none: it sets the prototype of
    [result], which the map does not record, so what is proved of reading
    [result] is proved for rows of other keys. *)
Definition collect_row (acc : gmap string Json * list ConsoleLine)
    (row : string * string) : gmap string Json * list ConsoleLine :=
  match JSON_parse (snd row) with
  | inl parsed =>
      (if String.eqb (fst row) "__proto__" then fst acc
       else <[fst row := parsed]> (fst acc),
       snd acc)
  | inr _ =>
      (fst acc,
       snd acc ++
         [console_warn
            (String.append "SettingsRepository: Skipping malformed setting '"
               (String.append (fst row) "'"))])
  end.

(** [async getAllSettings()]. *)
Definition getAllSettings (db : SettingsDatabase)
    : gmap string Json * list ConsoleLine :=
  if negb (isInitialized db) then (∅, [])
  else
    match select_all db with
    | Resolved rows => fold_left collect_row rows (∅, [])
    | Rejected err =>
        (∅, [console_error "SettingsRepository: Failed to get all settings:" err])
    end.

(** ** [settings.page.ts]: the fields of the page *)

(** [subscribed] says that [ngOnInit] has subscribed the page to
    [settings$] and [ngOnDestroy] has not yet unsubscribed it;
    [page_selectedTarget] and [page_pingInterval] are the fields
    [selectedTarget] and [pingInterval]. *)
Record SettingsPage : Type := mkSettingsPage {
  subscribed : bool;
  page_selectedTarget : string;
  page_pingInterval : Z
}.

(** A toast that was created and presented: message and colour. *)
Definition Toast : Type := (string * string)%type.

(** ** [settings.service.ts] *)

Definition KEY_MONITORING_CONFIG : string := "monitoring_config".
Definition KEY_REGION : string := "region".
Definition KEY_USER_INFO : string := "user_info".
Definition KEY_CONNECTION_INFO : string := "connection_info".

(** The application: the value of [_settings$], the database behind the
    repository, the console, the settings page and the toasts shown. *)
Record App : Type := mkApp {
  current : AppSettings;
  database : SettingsDatabase;
  lines : list ConsoleLine;
  page : SettingsPage;
  toasts : list Toast
}.

(** The service as constructed, with a page that has not subscribed. *)
Definition fresh (db : SettingsDatabase) : App :=
  {| current := DEFAULT_SETTINGS; database := db; lines := [];
     page := {| subscribed := false; page_selectedTarget := "";
                page_pingInterval := 5 |};
     toasts := [] |}.

(** The subscriber of the page:
    [settings => { this.selectedTarget = ...; this.pingInterval = ... }]. *)
Definition page_observes (settings : AppSettings) (p : SettingsPage)
    : SettingsPage :=
  {| subscribed := subscribed p;
     page_selectedTarget := pingTarget (monitoringConfig settings);
     page_pingInterval := pingInterval (monitoringConfig settings) |}.

(** [this._settings$.next(settings)]: the value changes and the page, if
    subscribed, observes it. *)
Definition next (settings : AppSettings) (a : App) : App :=
  {| current := settings; database := database a; lines := lines a;
     page := if subscribed (page a) then page_observes settings (page a)
             else page a;
     toasts := toasts a |}.

(** [getCurrentSettings()]. *)
Definition getCurrentSettings (a : App) : AppSettings := current a.

(** The four lookups and spreads of [loadSettings], on the own properties
    of [stored]. *)
Definition merge_stored (stored : gmap string Json) : AppSettings :=
  {| monitoringConfig :=
       merge_config (monitoringConfig DEFAULT_SETTINGS)
         (from_option as_monitoringConfig no_monitoringConfig
            (stored !! KEY_MONITORING_CONFIG));
     region :=
       merge_region (region DEFAULT_SETTINGS)
         (from_option as_region no_region (stored !! KEY_REGION));
     userInfo :=
       merge_userInfo (userInfo DEFAULT_SETTINGS)
         (from_option as_userInfo no_userInfo (stored !! KEY_USER_INFO));
     connectionInfo :=
       merge_connectionInfo (connectionInfo DEFAULT_SETTINGS)
         (from_option as_connectionInfo no_connectionInfo
            (stored !! KEY_CONNECTION_INFO)) |}.

(** [async loadSettings()]. *)
Definition loadSettings (a : App) : App :=
  let '(stored, out) := getAllSettings (database a) in
  let a1 := next (merge_stored stored)
              {| current := current a; database := database a;
                 lines := lines a ++ out; page := page a;
                 toasts := toasts a |} in
  {| current := current a1; database := database a1;
     lines := lines a1 ++ [console_log "SettingsService: Settings loaded"];
     page := page a1; toasts := toasts a1 |}.

(** An update between its [await] and what follows: the settings it read
    when it was called and the section it computed. *)
Record PendingUpdate : Type := mkPendingUpdate {
  captured : AppSettings;
  updated : SettingValue
}.

(** The key a section is stored under. *)
Definition key_of (v : SettingValue) : string :=
  match v with
  | MonitoringValue _ => KEY_MONITORING_CONFIG
  | RegionValue _ => KEY_REGION
  | UserInfoValue _ => KEY_USER_INFO
  | ConnectionInfoValue _ => KEY_CONNECTION_INFO
  end.

(** [{ ...current, monitoringConfig: updated }] and its three siblings. *)
Definition replace_section (settings : AppSettings) (v : SettingValue)
    : AppSettings :=
  match v with
  | MonitoringValue c =>
      {| monitoringConfig := c; region := region settings;
         userInfo := userInfo settings;
         connectionInfo := connectionInfo settings |}
  | RegionValue r =>
      {| monitoringConfig := monitoringConfig settings; region := r;
         userInfo := userInfo settings;
         connectionInfo := connectionInfo settings |}
  | UserInfoValue u =>
      {| monitoringConfig := monitoringConfig settings;
         region := region settings; userInfo := u;
         connectionInfo := connectionInfo settings |}
  | ConnectionInfoValue c =>
      {| monitoringConfig := monitoringConfig settings;
         region := region settings; userInfo := userInfo settings;
         connectionInfo := c |}
  end.

(** An update up to its [await]: the section computed from the current
    settings is handed to [setSetting]. *)
Definition begin_update (section : AppSettings -> SettingValue) (a : App)
    : App * PendingUpdate :=
  let settings := current a in
  let v := section settings in
  let '(db', (_, out)) := setSetting (database a) (key_of v) v in
  ({| current := current a; database := db'; lines := lines a ++ out;
      page := page a; toasts := toasts a |},
   {| captured := settings; updated := v |}).

(** An update after its [await]: the settings read at the call, with the
    one section replaced, become the current ones. *)
Definition finish_update (p : PendingUpdate) (a : App) : App :=
  next (replace_section (captured p) (updated p)) a.

(** An update that nothing interleaves with. *)
Definition update (section : AppSettings -> SettingValue) (a : App) : App :=
  let '(a1, p) := begin_update section a in finish_update p a1.

(** The sections the four updates compute. *)
Definition monitoringConfig_section (config : PartialMonitoringConfig)
    (settings : AppSettings) : SettingValue :=
  MonitoringValue (merge_config (monitoringConfig settings) config).

Definition region_section (p : PartialRegionConfig) (settings : AppSettings)
    : SettingValue :=
  RegionValue (merge_region (region settings) p).

Definition userInfo_section (p : PartialUserInfo) (settings : AppSettings)
    : SettingValue :=
  UserInfoValue (merge_userInfo (userInfo settings) p).

Definition connectionInfo_section (p : PartialConnectionInfo)
    (settings : AppSettings) : SettingValue :=
  ConnectionInfoValue (merge_connectionInfo (connectionInfo settings) p).

(** [async updateMonitoringConfig(config)], [updateRegion(region)],
    [updateUserInfo(userInfo)], [updateConnectionInfo(connectionInfo)]. *)
Definition updateMonitoringConfig (config : PartialMonitoringConfig)
    : App -> App :=
  update (monitoringConfig_section config).

Definition updateRegion (p : PartialRegionConfig) : App -> App :=
  update (region_section p).

Definition updateUserInfo (p : PartialUserInfo) : App -> App :=
  update (userInfo_section p).

Definition updateConnectionInfo (p : PartialConnectionInfo) : App -> App :=
  update (connectionInfo_section p).

(** ** [settings.page.ts] *)

Definition set_page (p : SettingsPage) (a : App) : App :=
  {| current := current a; database := database a; lines := lines a;
     page := p; toasts := toasts a |}.

(** [ngOnInit()]: the page subscribes and observes the current value at
    once. *)
Definition ngOnInit (a : App) : App :=
  set_page
    (page_observes (current a)
       {| subscribed := true;
          page_selectedTarget := page_selectedTarget (page a);
          page_pingInterval := page_pingInterval (page a) |})
    a.

(** [ngOnDestroy()]. *)
Definition ngOnDestroy (a : App) : App :=
  set_page
    {| subscribed := false;
       page_selectedTarget := page_selectedTarget (page a);
       page_pingInterval := page_pingInterval (page a) |}
    a.

(** [showToast(message, color)]. *)
Definition showToast (message color : string) (a : App) : App :=
  {| current := current a; database := database a; lines := lines a;
     page := page a; toasts := toasts a ++ [(message, color)] |}.

Definition showSavedToast : App -> App := showToast "Settings saved" "success".

(** [async onTargetChange(value)]. *)
Definition onTargetChange (v : string) (a : App) : App :=
  showSavedToast (updateMonitoringConfig (only_pingTarget v) a).

(** [Math.max(1, Math.min(60, value))]. *)
Definition clamp_interval (v : Z) : Z := Z.max 1 (Z.min 60 v).

(** [async onIntervalChange(value)]. *)
Definition onIntervalChange (v : Z) (a : App) : App :=
  let clamped := clamp_interval v in
  let a1 :=
    if negb (clamped =? v) then
      set_page {| subscribed := subscribed (page a);
                  page_selectedTarget := page_selectedTarget (page a);
                  page_pingInterval := clamped |} a
    else a in
  showSavedToast (updateMonitoringConfig (only_pingInterval clamped) a1).

(** [async restoreDefaults()]. *)
Definition restoreDefaults (a : App) : App :=
  showToast "Defaults restored" "medium"
    (updateMonitoringConfig
       (whole_monitoringConfig (monitoringConfig DEFAULT_SETTINGS)) a).

(** What the user can do on the settings page. *)
Inductive PageAction : Type :=
| TargetChange (v : string)
| IntervalChange (v : Z)
| RestoreDefaults.

Definition act (a : App) (action : PageAction) : App :=
  match action with
  | TargetChange v => onTargetChange v a
  | IntervalChange v => onIntervalChange v a
  | RestoreDefaults => restoreDefaults a
  end.

(** ** Runs of the settings and what is said about them *)

(** What can happen to the settings while the page is shown: the user acts
    on the page, another caller updates one of the other sections, the
    settings are loaded again. *)
Inductive AppEvent : Type :=
| PageDoes (action : PageAction)
| RegionUpdated (p : PartialRegionConfig)
| UserInfoUpdated (p : PartialUserInfo)
| ConnectionInfoUpdated (p : PartialConnectionInfo)
| SettingsLoaded.

Definition app_step (a : App) (e : AppEvent) : App :=
  match e with
  | PageDoes action => act a action
  | RegionUpdated p => updateRegion p a
  | UserInfoUpdated p => updateUserInfo p a
  | ConnectionInfoUpdated p => updateConnectionInfo p a
  | SettingsLoaded => loadSettings a
  end.

(** The page shows the monitoring configuration the service holds. *)
Definition page_in_sync (a : App) : Prop :=
  page_selectedTarget (page a) = pingTarget (monitoringConfig (current a)) /\
  page_pingInterval (page a) = pingInterval (monitoringConfig (current a)).

(** The keys of [c2] laid over those of [c1]. *)
Definition overlay_monitoringConfig (c1 c2 : PartialMonitoringConfig)
    : PartialMonitoringConfig :=
  {| partial_pingTarget :=
       match partial_pingTarget c2 with
       | Some t => Some t
       | None => partial_pingTarget c1
       end;
     partial_pingInterval :=
       match partial_pingInterval c2 with
       | Some i => Some i
       | None => partial_pingInterval c1
       end |}.

(** The row parses. *)
Definition wellformed (row : string * string) : bool :=
  match JSON_parse (snd row) with
  | inl _ => true
  | inr _ => false
  end.

(** The parsed values of the rows of key [k] that parse, in row order. *)
Definition wellformed_values (k : string) (rows : list (string * string))
    : list Json :=
  omap (fun row =>
          if String.eqb (fst row) k then
            match JSON_parse (snd row) with
            | inl parsed => Some parsed
            | inr _ => None
            end
          else None) rows.

(** The rows of key [k], as the SELECT by key returns them. *)
Definition values_of (k : string) (rows : list (string * string))
    : list string :=
  map snd (List.filter (fun row => String.eqb (fst row) k) rows).

End Repository.

End Settings.

(** * Proofs *)

(** ** The history buffer *)

Lemma slice_neg50_drop {A : Type} (l : list A) :
  slice (-50) l = drop (length l - 50)%nat l.
Proof.
  unfold slice. replace (-50 <? 0) with true by reflexivity.
  f_equal. lia.
Qed.

Lemma slice_neg50_length {A : Type} (l : list A) :
  (length (slice (-50) l) <= 50)%nat.
Proof. rewrite slice_neg50_drop, length_drop. lia. Qed.

Lemma slice_neg50_length_min {A : Type} (l : list A) :
  length (slice (-50) l) = Nat.min 50 (length l).
Proof. rewrite slice_neg50_drop, length_drop. lia. Qed.

(** Pushing onto the kept suffix is the same as pushing onto everything
    that was ever pushed. *)
Lemma slice_neg50_slice_app {A : Type} (l m : list A) :
  slice (-50) (slice (-50) l ++ m) = slice (-50) (l ++ m).
Proof.
  rewrite !slice_neg50_drop.
  rewrite <- (drop_app_le l m (length l - 50)) by lia.
  rewrite drop_drop. f_equal.
  rewrite length_drop, !length_app. lia.
Qed.

Lemma slice_neg50_snoc {A : Type} (l : list A) (x : A) :
  slice (-50) (slice (-50) l ++ [x]) = slice (-50) (l ++ [x]).
Proof. apply slice_neg50_slice_app. Qed.

(** ** The probe *)

Lemma error_result_ok (t : Z) : measurement_ok (error_result t).
Proof.
  unfold measurement_ok; cbn. split.
  - intros [x Hx]; discriminate.
  - discriminate.
Qed.

Lemma ok_result_ok (l t : Z) :
  measurement_ok {| latencyMs := Some l; timestamp := t; status := StatusOk |}.
Proof. unfold measurement_ok; cbn. split; eauto. Qed.

(** [measureLatency] always delivers a value, never an error. *)
Lemma measureLatency_delivers (via : Transport) (start t : Z)
    (response : Settled Z) :
  exists result,
    fst (measureLatency via start t response) = Next result /\
    measurement_ok result /\
    (forall e, response = Rejected e -> result = error_result t) /\
    (forall payload, response = Resolved payload -> status result = StatusOk).
Proof.
  destruct via, response as [payload | e]; cbn;
    eexists; (split; [reflexivity |]);
    (split; [first [apply ok_result_ok | apply error_result_ok] |]);
    split; intros ? Heq; first [discriminate | reflexivity].
Qed.

(** ** What time and timers leave alone *)

Lemma timer_frame_refl (s : State) : timer_frame s s.
Proof.
  unfold timer_frame. repeat split; try reflexivity.
  exists []. rewrite app_nil_r. reflexivity.
Qed.

Lemma timer_frame_trans (s1 s2 s3 : State) :
  timer_frame s1 s2 -> timer_frame s2 s3 -> timer_frame s1 s3.
Proof.
  unfold timer_frame.
  intros (A1 & A2 & A3 & A4 & A5 & A6 & A7 & A8 & A9 & A10 & m1 & A11)
         (B1 & B2 & B3 & B4 & B5 & B6 & B7 & B8 & B9 & B10 & m2 & B11).
  repeat split; try congruence.
  exists (m1 ++ m2). rewrite B11, A11, app_assoc. reflexivity.
Qed.

Lemma closed_insert_same (subs : list Subscription) (id : nat)
    (sub sub' : Subscription) :
  subs !! id = Some sub -> closed sub' = closed sub ->
  closed <$> <[id := sub']> subs = closed <$> subs.
Proof.
  intros Hl Hc. rewrite list_fmap_insert, Hc.
  apply list_insert_id. rewrite list_lookup_fmap, Hl. reflexivity.
Qed.

Lemma fire_frame (s : State) (id : nat) : timer_frame s (fire s id).
Proof.
  unfold fire.
  destruct (subscriptions s !! id) as [sub |] eqn:Hsub; [| apply timer_frame_refl].
  destruct (closed sub) eqn:Hc; [apply timer_frame_refl |].
  destruct (due sub) as [t |]; [| apply timer_frame_refl].
  destruct (t <=? now s); [| apply timer_frame_refl].
  unfold timer_frame, tick; cbn. repeat split.
  - apply (closed_insert_same _ _ sub); [assumption | cbn; congruence].
  - eexists. reflexivity.
Qed.

Lemma set_now_frame (t : Z) (s : State) : timer_frame s (set_now t s).
Proof.
  unfold timer_frame; cbn. repeat split.
  exists []. rewrite app_nil_r. reflexivity.
Qed.

Lemma fold_fire_frame (ids : list nat) (s : State) :
  timer_frame s (fold_left fire ids s).
Proof.
  revert s. induction ids as [| id ids IH]; intros s; cbn.
  - apply timer_frame_refl.
  - eapply timer_frame_trans; [apply fire_frame | apply IH].
Qed.

Lemma run_timers_frame (s : State) : timer_frame s (run_timers s).
Proof. apply fold_fire_frame. Qed.

Lemma elapse_frame (n : nat) (s : State) : timer_frame s (elapse n s).
Proof.
  revert s. induction n as [| n IH]; intros s; cbn.
  - apply timer_frame_refl.
  - eapply timer_frame_trans; [| apply IH].
    eapply timer_frame_trans; [apply (set_now_frame (now s + 1)) |].
    apply run_timers_frame.
Qed.

Lemma advance_frame (ms : Z) (s : State) : timer_frame s (advance ms s).
Proof.
  unfold advance.
  eapply timer_frame_trans; [apply run_timers_frame | apply elapse_frame].
Qed.

(** ** What a delivered result changes *)

Lemma on_result_fields (r : PingResult) (s : State) :
  results (on_result r s) = slice (-50) (results s ++ [r]) /\
  savePing_calls (on_result r s) = savePing_calls s ++ [(r, get_pingTarget s)] /\
  subscriptions (on_result r s) = subscriptions s /\
  probes (on_result r s) = probes s /\
  pollingSubscription (on_result r s) = pollingSubscription s /\
  settings (on_result r s) = settings s /\
  isMonitoring (on_result r s) = isMonitoring s /\
  now (on_result r s) = now s /\
  isTauri (on_result r s) = isTauri s /\
  isNativePlatform (on_result r s) = isNativePlatform s.
Proof.
  unfold on_result. cbn.
  destruct (savePing (db s) r (get_pingTarget (set_results _ s)))
    as [database [settled out]].
  cbn. repeat split.
Qed.

(** Either the promise settles unobserved, or its one value is pushed. *)
Lemma settle_cases (p : nat) (response : Settled Z) (s : State) :
  let s' := settle p response s in
  pollingSubscription s' = pollingSubscription s /\
  settings s' = settings s /\
  isMonitoring s' = isMonitoring s /\
  now s' = now s /\
  length (probes s') = length (probes s) /\
  ((results s' = results s /\ savePing_calls s' = savePing_calls s /\
    subscriptions s' = subscriptions s) \/
   (exists pr sub r,
      probes s !! p = Some pr /\ pending pr = true /\
      subscriptions s !! owner pr = Some sub /\
      closed sub = false /\ inner sub = Some p /\
      fst (measureLatency (transport pr) (started pr) (now s) response) = Next r /\
      results s' = slice (-50) (results s ++ [r]) /\
      savePing_calls s' = savePing_calls s ++ [(r, get_pingTarget s)] /\
      subscriptions s' = alter inner_complete (owner pr) (subscriptions s))).
Proof.
  unfold settle.
  destruct (probes s !! p) as [pr |] eqn:Hp; [| cbn; tauto].
  destruct (pending pr) eqn:Hpen; [| cbn; tauto].
  cbn [subscriptions set_probes].
  destruct (subscriptions s !! owner pr) as [sub |] eqn:Hsub;
    [| cbn; rewrite length_insert; tauto].
  destruct (negb (closed sub) && bool_decide (inner sub = Some p)) eqn:Hobs;
    [| cbn; rewrite length_insert; tauto].
  apply andb_true_iff in Hobs as [Hc Hi].
  apply negb_true_iff in Hc. apply bool_decide_eq_true in Hi.
  cbn [now set_probes].
  destruct (measureLatency_delivers (transport pr) (started pr) (now s) response)
    as (r & Hr & _).
  destruct (measureLatency (transport pr) (started pr) (now s) response)
    as [n out] eqn:Hm.
  cbn in Hr. subst n.
  match goal with
  | |- context [on_result r ?s0] =>
      destruct (on_result_fields r s0)
        as (R1 & R2 & R3 & R4 & R5 & R6 & R7 & R8 & _)
  end.
  cbn in R1, R2, R3, R4, R5, R6, R7, R8. cbn.
  rewrite R4, R5, R6, R7, R8, length_insert.
  repeat (split; [reflexivity |]).
  right. exists pr, sub, r.
  rewrite R1, R2, R3, Hm.
  repeat split; first [assumption | reflexivity].
Qed.

(** ** Starting and stopping *)

Lemma stopMonitoring_fields (s : State) :
  results (stopMonitoring s) = results s /\
  savePing_calls (stopMonitoring s) = savePing_calls s /\
  probes (stopMonitoring s) = probes s /\
  settings (stopMonitoring s) = settings s /\
  now (stopMonitoring s) = now s /\
  db (stopMonitoring s) = db s /\
  console (stopMonitoring s) = console s /\
  pollingSubscription (stopMonitoring s) = None /\
  isMonitoring (stopMonitoring s) = false /\
  subscriptions (stopMonitoring s) =
    match pollingSubscription s with
    | Some id => alter unsubscribe id (subscriptions s)
    | None => subscriptions s
    end.
Proof.
  unfold stopMonitoring.
  destruct (pollingSubscription s) eqn:Hp; cbn; rewrite ?Hp; repeat split.
Qed.

#[local] Arguments stopMonitoring : simpl never.

Lemma startMonitoring_fields (intervalMs : option Z) (s : State) :
  results (startMonitoring intervalMs s) = results s /\
  savePing_calls (startMonitoring intervalMs s) = savePing_calls s /\
  probes (startMonitoring intervalMs s) = probes s /\
  settings (startMonitoring intervalMs s) = settings s /\
  now (startMonitoring intervalMs s) = now s /\
  db (startMonitoring intervalMs s) = db s /\
  console (startMonitoring intervalMs s) = console s /\
  pollingSubscription (startMonitoring intervalMs s) =
    Some (length (subscriptions (stopMonitoring s))) /\
  isMonitoring (startMonitoring intervalMs s) = true /\
  subscriptions (startMonitoring intervalMs s) =
    subscriptions (stopMonitoring s) ++
      [{| closed := false; period := resolve_interval intervalMs s;
          due := Some (now s + 0); inner := None |}].
Proof.
  destruct (stopMonitoring_fields s)
    as (R1 & R2 & R3 & R4 & R5 & R6 & R7 & R8 & R9 & R10).
  unfold startMonitoring. cbn.
  rewrite R1, R2, R3, R4, R5, R6, R7.
  repeat split.
  destruct intervalMs; cbn; [reflexivity |].
  unfold get_pingIntervalMs. cbn. rewrite R4. reflexivity.
Qed.

(** ** The invariants of a run *)

Lemma open_at_lookup (s : State) (id : nat) :
  open_at s id <->
  exists sub, subscriptions s !! id = Some sub /\ closed sub = false.
Proof.
  unfold open_at. rewrite list_lookup_fmap. split.
  - destruct (subscriptions s !! id) as [sub |]; cbn; [| discriminate].
    intros [= H]. eauto.
  - intros (sub & -> & H). cbn. congruence.
Qed.

Lemma init_invariant (tauri native : bool) (config : MonitoringConfig)
    (database : DatabaseService) :
  invariant (init tauri native config database).
Proof.
  split; cbn.
  - reflexivity.
  - constructor.
  - intros id. unfold open_at. cbn. rewrite lookup_nil. discriminate.
Qed.

(** Closing a subscription opens none. *)
Lemma closed_alter_mono (f : Subscription -> Subscription)
    (subs : list Subscription) (i id : nat) :
  (forall sub, closed sub = true -> closed (f sub) = true) ->
  (closed <$> alter f i subs) !! id = Some false ->
  (closed <$> subs) !! id = Some false.
Proof.
  intros Hf. rewrite !list_lookup_fmap.
  destruct (decide (i = id)) as [-> | Hne].
  - rewrite list_lookup_alter_eq.
    destruct (subs !! id) as [sub |]; cbn; [| discriminate].
    intros [= H]. f_equal.
    destruct (closed sub) eqn:Hc; [| reflexivity].
    rewrite (Hf sub Hc) in H. discriminate.
  - rewrite list_lookup_alter_ne by assumption. trivial.
Qed.

Lemma unsubscribe_closed (subs : list Subscription) (id : nat) :
  (closed <$> alter unsubscribe id subs) !! id <> Some false.
Proof.
  rewrite list_lookup_fmap, list_lookup_alter_eq.
  destruct (subs !! id); cbn; discriminate.
Qed.

(** After [stopMonitoring], no subscription is open. *)
Lemma stopMonitoring_all_closed (s : State) :
  (forall id, open_at s id -> pollingSubscription s = Some id) ->
  forall id, ~ open_at (stopMonitoring s) id.
Proof.
  intros Hinv id Hopen. unfold open_at in Hopen.
  destruct (stopMonitoring_fields s) as (_ & _ & _ & _ & _ & _ & _ & _ & _ & Hs).
  rewrite Hs in Hopen.
  destruct (pollingSubscription s) as [cur |] eqn:Hp.
  - assert (Hold : open_at s id).
    { eapply closed_alter_mono; [| exact Hopen]. reflexivity. }
    apply Hinv in Hold. injection Hold as ->.
    exact (unsubscribe_closed _ _ Hopen).
  - apply Hinv in Hopen. discriminate.
Qed.

Lemma startMonitoring_invariant (intervalMs : option Z) (s : State) :
  invariant s -> invariant (startMonitoring intervalMs s).
Proof.
  intros [Hh Hm Hs].
  destruct (startMonitoring_fields intervalMs s)
    as (R1 & R2 & _ & _ & _ & _ & _ & R8 & _ & R10).
  split; unfold pushed in *.
  - rewrite R1, R2. assumption.
  - rewrite R2. assumption.
  - intros id Hopen. rewrite R8. f_equal.
    unfold open_at in Hopen. rewrite R10, fmap_app in Hopen.
    destruct (decide (id < length (subscriptions (stopMonitoring s)))%nat)
      as [Hlt | Hge].
    + rewrite lookup_app_l in Hopen by (rewrite length_fmap; assumption).
      exfalso. exact (stopMonitoring_all_closed s Hs id Hopen).
    + apply lookup_lt_Some in Hopen.
      rewrite length_app, length_fmap in Hopen. cbn in Hopen. lia.
Qed.

Lemma stopMonitoring_invariant (s : State) :
  invariant s -> invariant (stopMonitoring s).
Proof.
  intros [Hh Hm Hs].
  destruct (stopMonitoring_fields s) as (R1 & R2 & _).
  split; unfold pushed in *.
  - rewrite R1, R2. assumption.
  - rewrite R2. assumption.
  - intros id Hopen. exfalso. exact (stopMonitoring_all_closed s Hs id Hopen).
Qed.

Lemma timer_frame_invariant (s s' : State) :
  timer_frame s s' -> invariant s -> invariant s'.
Proof.
  intros (R1 & R2 & _ & _ & R5 & _ & _ & _ & _ & R10 & _) [Hh Hm Hs].
  split; unfold pushed, open_at in *.
  - rewrite R1, R2. assumption.
  - rewrite R2. assumption.
  - rewrite R5, R10. assumption.
Qed.

Lemma settle_invariant (p : nat) (response : Settled Z) (s : State) :
  invariant s -> invariant (settle p response s).
Proof.
  intros [Hh Hm Hs].
  destruct (settle_cases p response s)
    as (R1 & _ & _ & _ & _ & [(R6 & R7 & R8) | (pr & sub & r & Hp & Hpen & Hsub & Hc & Hi & Hr & R6 & R7 & R8)]).
  - split; unfold pushed, open_at in *.
    + rewrite R6, R7. assumption.
    + rewrite R7. assumption.
    + rewrite R1, R8. assumption.
  - split; unfold pushed, open_at in *.
    + rewrite R6, R7, Hh, map_app. cbn [map fst].
      apply slice_neg50_snoc.
    + rewrite R7, map_app. apply Forall_app. split; [assumption |].
      cbn. constructor; [| constructor].
      destruct (measureLatency_delivers (transport pr) (started pr) (now s) response)
        as (r' & Hr' & Hok & _).
      rewrite Hr in Hr'. injection Hr' as <-. assumption.
    + intros id Hopen. rewrite R1. apply Hs.
      rewrite R8 in Hopen. revert Hopen.
      rewrite !list_lookup_fmap.
      destruct (decide (owner pr = id)) as [<- | Hne].
      * rewrite Hsub. cbn. congruence.
      * rewrite list_lookup_alter_ne by assumption. trivial.
Qed.

Lemma step_invariant (s : State) (e : Event) :
  invariant s -> invariant (step s e).
Proof.
  destruct e as [intervalMs | | ms | p response | config]; cbn [step].
  - apply startMonitoring_invariant.
  - apply stopMonitoring_invariant.
  - apply timer_frame_invariant, advance_frame.
  - apply settle_invariant.
  - intros [Hh Hm Hs]. split; assumption.
Qed.

Lemma run_app (e1 e2 : list Event) (s : State) :
  run (e1 ++ e2) s = run e2 (run e1 s).
Proof. unfold run. apply fold_left_app. Qed.

Lemma run_invariant (events : list Event) (s : State) :
  invariant s -> invariant (run events s).
Proof.
  revert s. induction events as [| e events IH]; intros s Hs; cbn.
  - assumption.
  - apply IH, step_invariant, Hs.
Qed.

(** The measurements handed to the subscriber only accumulate. *)
Lemma step_pushed (s : State) (e : Event) :
  exists fresh, pushed (step s e) = pushed s ++ fresh.
Proof.
  unfold pushed.
  destruct e as [intervalMs | | ms | p response | config]; cbn [step].
  - destruct (startMonitoring_fields intervalMs s) as (_ & R2 & _).
    exists []. rewrite R2, app_nil_r. reflexivity.
  - destruct (stopMonitoring_fields s) as (_ & R2 & _).
    exists []. rewrite R2, app_nil_r. reflexivity.
  - destruct (advance_frame ms s) as (_ & R2 & _).
    exists []. rewrite R2, app_nil_r. reflexivity.
  - destruct (settle_cases p response s)
      as (_ & _ & _ & _ & _ & [(_ & R7 & _) | (pr & sub & r & Hrest)]).
    + exists []. rewrite R7, app_nil_r. reflexivity.
    + destruct Hrest as (_ & _ & _ & _ & _ & _ & _ & R7 & _).
      exists [r]. rewrite R7, map_app. reflexivity.
  - exists []. cbn. rewrite app_nil_r. reflexivity.
Qed.

Lemma run_pushed (events : list Event) (s : State) :
  exists fresh, pushed (run events s) = pushed s ++ fresh.
Proof.
  revert s. induction events as [| e events IH]; intros s; cbn.
  - exists []. rewrite app_nil_r. reflexivity.
  - destruct (step_pushed s e) as [f1 H1].
    destruct (IH (step s e)) as [f2 H2].
    exists (f1 ++ f2). unfold run in H2. rewrite H2, H1, app_assoc. reflexivity.
Qed.

Lemma fold_push_result (pushes : list PingResult) :
  fold_left push_result pushes [] = slice (-50) pushes.
Proof.
  induction pushes as [| x pushes IH] using rev_ind.
  - reflexivity.
  - rewrite fold_left_app. cbn [fold_left]. rewrite IH.
    unfold push_result. apply slice_neg50_snoc.
Qed.

(** * The claims *)

(** C1. For every sequence of measurements pushed into the results
    history, whether taken as a bare sequence of pushes from the empty
    history or as the pushes of an arbitrary run of the service, the
    published list never holds more than 50 entries and is exactly what
    remains of the pushed sequence, in push order, once the oldest entries
    beyond 50 are evicted. *)
Theorem C1_history_keeps_last_50 :
  (forall pushes : list PingResult,
     let history := fold_left push_result pushes [] in
     (length history <= 50)%nat /\
     pushes = take (length pushes - 50) pushes ++ history) /\
  (forall tauri native config database events,
     let s := run events (init tauri native config database) in
     (length (results s) <= 50)%nat /\
     length (results s) = Nat.min 50 (length (pushed s)) /\
     pushed s = take (length (pushed s) - 50) (pushed s) ++ results s).
Proof.
  split.
  - intros pushes history. subst history. rewrite fold_push_result. split.
    + apply slice_neg50_length.
    + rewrite slice_neg50_drop. symmetry. apply take_drop.
  - intros tauri native config database events s.
    destruct (run_invariant events _ (init_invariant tauri native config database))
      as [Hh _ _].
    fold s in Hh. rewrite Hh. repeat split.
    + apply slice_neg50_length.
    + apply slice_neg50_length_min.
    + rewrite slice_neg50_drop. symmetry. apply take_drop.
Qed.

(** C3. A probe never propagates an error: whatever the transport and
    however its promise settles, [measureLatency] delivers a value; on a
    rejection that value has status 'error' and a null latency; and every
    measurement a run of the service hands on or keeps in its history has
    a latency iff its status is 'ok'. *)
Theorem C3_probe_failure_becomes_measurement :
  (forall via start t response,
     exists result,
       fst (measureLatency via start t response) = Next result /\
       measurement_ok result) /\
  (forall via start t e,
     fst (measureLatency via start t (Rejected e)) =
       Next {| latencyMs := None; timestamp := t; status := StatusError |}) /\
  (forall tauri native config database events,
     let s := run events (init tauri native config database) in
     Forall measurement_ok (pushed s) /\ Forall measurement_ok (results s)).
Proof.
  split; [| split].
  - intros via start t response.
    destruct (measureLatency_delivers via start t response) as (r & H1 & H2 & _).
    eauto.
  - intros via start t e. destruct via; reflexivity.
  - intros tauri native config database events s.
    destruct (run_invariant events _ (init_invariant tauri native config database))
      as [Hh Hm _].
    fold s in Hh, Hm. split; [assumption |].
    rewrite Hh, slice_neg50_drop. apply Forall_drop. assumption.
Qed.

(** C10. Neither [stopMonitoring] nor [startMonitoring] touches the
    history: after a stop followed by a start, whatever was in the buffer
    is still there, and what the new run delivers is appended behind it,
    the whole cut to the last 50. *)
Theorem C10_restart_keeps_history :
  (forall s intervalMs,
     results (stopMonitoring s) = results s /\
     results (startMonitoring intervalMs s) = results s /\
     results (startMonitoring intervalMs (stopMonitoring s)) = results s) /\
  (forall tauri native config database before intervalMs after,
     let s := run before (init tauri native config database) in
     let s' := run ([StopMonitoring; StartMonitoring intervalMs] ++ after) s in
     exists fresh,
       pushed s' = pushed s ++ fresh /\
       results s' = slice (-50) (results s ++ fresh) /\
       (length (results s') <= 50)%nat).
Proof.
  split.
  - intros s intervalMs.
    destruct (stopMonitoring_fields s) as (R1 & _).
    destruct (startMonitoring_fields intervalMs s) as (R2 & _).
    destruct (startMonitoring_fields intervalMs (stopMonitoring s)) as (R3 & _).
    rewrite R3, R2, R1. auto.
  - intros tauri native config database before intervalMs after s s'.
    assert (Hs : invariant s)
      by apply run_invariant, init_invariant.
    assert (Hs' : invariant s') by apply run_invariant, Hs.
    destruct (run_pushed ([StopMonitoring; StartMonitoring intervalMs] ++ after) s)
      as [fresh Hf].
    fold s' in Hf. exists fresh. split; [assumption |].
    rewrite (inv_history _ Hs'), (inv_history _ Hs), Hf. split.
    + symmetry. apply slice_neg50_slice_app.
    + apply slice_neg50_length.
Qed.

(** ** At most one loop *)

Lemma is_open_open_at (s : State) (id : nat) :
  is_open s id = true <-> open_at s id.
Proof.
  rewrite open_at_lookup. unfold is_open. split.
  - destruct (subscriptions s !! id) as [sub |]; [| discriminate].
    intros H. apply negb_true_iff in H. eauto.
  - intros (sub & -> & H). rewrite H. reflexivity.
Qed.

Lemma nodup_all_equal (l : list nat) (x : nat) :
  List.NoDup l -> (forall y, List.In y l -> y = x) -> l = [] \/ l = [x].
Proof.
  intros Hnd Hall. destruct l as [| a l]; [left; reflexivity | right].
  assert (a = x) by (apply Hall; left; reflexivity). subst a.
  destruct l as [| b l]; [reflexivity |].
  assert (b = x) by (apply Hall; right; left; reflexivity). subst b.
  inversion Hnd as [| ? ? Hnotin _]. exfalso. apply Hnotin. left. reflexivity.
Qed.

Lemma open_ids_single (s : State) :
  invariant s ->
  open_ids s = [] \/
  exists id, pollingSubscription s = Some id /\ open_ids s = [id].
Proof.
  intros [_ _ Hs]. unfold open_ids.
  set (l := List.filter (is_open s) (seq 0 (length (subscriptions s)))).
  assert (Hnd : List.NoDup l) by apply List.NoDup_filter, List.seq_NoDup.
  assert (Hin : forall y, List.In y l -> pollingSubscription s = Some y).
  { intros y Hy. apply List.filter_In in Hy as [_ Hy].
    apply Hs, is_open_open_at, Hy. }
  destruct (pollingSubscription s) as [cur |] eqn:Hp.
  - destruct (nodup_all_equal l cur Hnd) as [-> | ->].
    + intros y Hy. apply Hin in Hy. congruence.
    + left; reflexivity.
    + right. exists cur. split; reflexivity.
  - left. destruct l as [| y l']; [reflexivity |].
    specialize (Hin y (or_introl eq_refl)). discriminate.
Qed.

(** A closed subscription's timer does nothing. *)
Lemma fire_not_open (s : State) (id : nat) : is_open s id = false -> fire s id = s.
Proof.
  unfold is_open, fire. destruct (subscriptions s !! id) as [sub |]; [| reflexivity].
  intros H. apply negb_false_iff in H. rewrite H. reflexivity.
Qed.

Lemma is_open_frame (s s' : State) (id : nat) :
  closed <$> subscriptions s' = closed <$> subscriptions s ->
  is_open s' id = is_open s id.
Proof.
  intros H. unfold is_open.
  assert (Hl : (closed <$> subscriptions s') !! id = (closed <$> subscriptions s) !! id)
    by (rewrite H; reflexivity).
  rewrite !list_lookup_fmap in Hl.
  destruct (subscriptions s' !! id), (subscriptions s !! id); cbn in Hl;
    congruence.
Qed.

Lemma fold_fire_none (ids : list nat) (s : State) :
  (forall b, List.In b ids -> is_open s b = false) ->
  fold_left fire ids s = s.
Proof.
  induction ids as [| b ids IH]; intros Hall; [reflexivity |].
  cbn [fold_left]. rewrite fire_not_open by (apply Hall; left; reflexivity).
  apply IH. intros c Hc. apply Hall. right. assumption.
Qed.

(** Among timers of which at most [id] is open, only [id] can fire. *)
Lemma fold_fire_single (ids : list nat) (s : State) (id : nat) :
  List.NoDup ids ->
  (forall id', is_open s id' = true -> id' = id) ->
  fold_left fire ids s = if bool_decide (id ∈ ids) then fire s id else s.
Proof.
  revert s. induction ids as [| a ids IH]; intros s Hnd Hone.
  - reflexivity.
  - inversion Hnd as [| ? ? Hnotin Hnd']; subst. cbn [fold_left].
    destruct (decide (a = id)) as [-> | Hne].
    + rewrite bool_decide_eq_true_2 by left.
      apply fold_fire_none. intros b Hb.
      destruct (fire_frame s id) as (_ & _ & _ & _ & _ & _ & _ & _ & _ & Hc & _).
      rewrite (is_open_frame s (fire s id) b Hc).
      destruct (is_open s b) eqn:Hopen; [| reflexivity].
      apply Hone in Hopen. subst b. contradiction.
    + rewrite fire_not_open.
      * rewrite IH by assumption.
        destruct (decide (id ∈ ids)) as [Hin | Hnin].
        -- rewrite !bool_decide_eq_true_2; [reflexivity | | assumption].
           right. assumption.
        -- rewrite !bool_decide_eq_false_2; [reflexivity | | assumption].
           intros Hin. apply elem_of_cons in Hin as [-> | Hin]; [congruence | tauto].
      * destruct (is_open s a) eqn:Ha; [| reflexivity].
        apply Hone in Ha. congruence.
Qed.

Lemma run_timers_single (s : State) (id : nat) :
  (forall id', is_open s id' = true -> id' = id) ->
  run_timers s = fire s id.
Proof.
  intros Hone. unfold run_timers.
  rewrite (fold_fire_single _ s id (List.seq_NoDup _ _) Hone).
  destruct (bool_decide (id ∈ seq 0 (length (subscriptions s)))) eqn:Hin;
    [reflexivity |].
  apply bool_decide_eq_false in Hin.
  unfold fire. destruct (subscriptions s !! id) as [sub |] eqn:Hl; [| reflexivity].
  exfalso. apply Hin. apply elem_of_seq. apply lookup_lt_Some in Hl. lia.
Qed.

Lemma fire_probes_le (s : State) (id : nat) :
  (length (probes (fire s id)) <= length (probes s) + 1)%nat.
Proof.
  unfold fire. destruct (subscriptions s !! id) as [sub |]; [| lia].
  destruct (closed sub); [lia |]. destruct (due sub) as [t |]; [| lia].
  destruct (t <=? now s); [| lia].
  cbn. rewrite length_app. cbn. lia.
Qed.

Lemma invariant_single_open (s : State) :
  invariant s ->
  forall id', is_open s id' = true ->
    id' = default 0%nat (pollingSubscription s).
Proof.
  intros [_ _ Hs] id' Hopen. apply is_open_open_at, Hs in Hopen.
  rewrite Hopen. reflexivity.
Qed.

Lemma stopMonitoring_length (s : State) :
  length (subscriptions (stopMonitoring s)) = length (subscriptions s).
Proof.
  destruct (stopMonitoring_fields s) as (_ & _ & _ & _ & _ & _ & _ & _ & _ & R).
  rewrite R. destruct (pollingSubscription s); [apply length_alter | reflexivity].
Qed.

Lemma startMonitoring_open_ids (intervalMs : option Z) (s : State) :
  invariant s ->
  open_ids (startMonitoring intervalMs s) = [length (subscriptions s)].
Proof.
  intros Hs.
  destruct (startMonitoring_fields intervalMs s)
    as (_ & _ & _ & _ & _ & _ & _ & R8 & _ & R10).
  rewrite stopMonitoring_length in R8.
  destruct (open_ids_single _ (startMonitoring_invariant intervalMs s Hs))
    as [Hnone | (id & Hp & Hone)].
  - exfalso.
    assert (Hin : List.In (length (subscriptions s))
                    (open_ids (startMonitoring intervalMs s))).
    { unfold open_ids. apply List.filter_In. split.
      - apply List.in_seq. rewrite R10, length_app, stopMonitoring_length.
        cbn. lia.
      - unfold is_open. rewrite R10.
        rewrite lookup_app_r by (rewrite stopMonitoring_length; lia).
        rewrite stopMonitoring_length, Nat.sub_diag. reflexivity. }
    rewrite Hnone in Hin. destruct Hin.
  - rewrite Hone. congruence.
Qed.

(** C6. In every state a run can reach, at most one polling loop is
    active, and it is the one the service holds in [pollingSubscription];
    [startMonitoring] leaves exactly the loop it has just created active,
    the prior one being torn down; and no instant sees more than one
    tick. *)
Theorem C6_at_most_one_active_loop :
  forall tauri native config database events,
    let s := run events (init tauri native config database) in
    (open_ids s = [] \/
     exists id, pollingSubscription s = Some id /\ open_ids s = [id]) /\
    (forall intervalMs,
       open_ids (startMonitoring intervalMs s) = [length (subscriptions s)]) /\
    (length (probes (run_timers s)) <= length (probes s) + 1)%nat.
Proof.
  intros tauri native config database events s.
  assert (Hs : invariant s) by apply run_invariant, init_invariant.
  split; [| split].
  - apply open_ids_single, Hs.
  - intros intervalMs. apply startMonitoring_open_ids, Hs.
  - rewrite (run_timers_single s _ (invariant_single_open s Hs)).
    apply fire_probes_le.
Qed.

(** ** After a stop *)

Lemma stopMonitoring_idle (s : State) : idle s -> stopMonitoring s = s.
Proof.
  intros [Hp Hm]. unfold stopMonitoring. rewrite Hp.
  destruct s; cbn in *. subst. reflexivity.
Qed.

Lemma stopMonitoring_quiescent (s : State) :
  invariant s -> quiescent (stopMonitoring s).
Proof.
  intros [_ _ Hs].
  destruct (stopMonitoring_fields s) as (_ & _ & _ & _ & _ & _ & _ & R8 & R9 & _).
  split; [split; assumption |].
  intros id. destruct (is_open (stopMonitoring s) id) eqn:Hopen; [| reflexivity].
  apply is_open_open_at in Hopen.
  exfalso. exact (stopMonitoring_all_closed s Hs id Hopen).
Qed.

Lemma run_timers_none (s : State) :
  (forall id, is_open s id = false) -> run_timers s = s.
Proof. intros H. apply fold_fire_none. intros b _. apply H. Qed.

Lemma elapse_none (n : nat) (s : State) :
  (forall id, is_open s id = false) ->
  elapse n s = set_now (now s + Z.of_nat n) s.
Proof.
  revert s. induction n as [| n IH]; intros s Hs.
  - cbn. destruct s; unfold set_now; cbn. f_equal. lia.
  - cbn [elapse]. rewrite run_timers_none by exact Hs.
    rewrite IH by exact Hs. unfold set_now; cbn. f_equal. lia.
Qed.

Lemma advance_none (ms : Z) (s : State) :
  (forall id, is_open s id = false) ->
  advance ms s = set_now (now s + Z.of_nat (Z.to_nat ms)) s.
Proof.
  intros Hs. unfold advance. rewrite run_timers_none by exact Hs.
  apply elapse_none, Hs.
Qed.

Lemma settle_db (p : nat) (response : Settled Z) (s : State) :
  savePing_calls (settle p response s) = savePing_calls s ->
  db (settle p response s) = db s.
Proof.
  unfold settle.
  destruct (probes s !! p) as [pr |]; [| reflexivity].
  destruct (pending pr); [| reflexivity].
  cbn [subscriptions set_probes].
  destruct (subscriptions s !! owner pr) as [sub |]; [| reflexivity].
  destruct (negb (closed sub) && bool_decide (inner sub = Some p));
    [| reflexivity].
  destruct (measureLatency (transport pr) (started pr) _ response) as [n out].
  destruct n as [r | err].
  - match goal with
    | |- context [on_result r ?s0] =>
        destruct (on_result_fields r s0) as (_ & R2 & _)
    end.
    cbn [savePing_calls set_subscriptions]. rewrite R2. cbn.
    intros H. exfalso.
    apply (f_equal (@length _)) in H. rewrite length_app in H. cbn in H. lia.
  - match goal with
    | |- context [on_result ?r ?s0] =>
        destruct (on_result_fields r s0) as (_ & R2 & _)
    end.
    cbn [savePing_calls set_subscriptions]. rewrite R2. cbn.
    intros H. exfalso.
    apply (f_equal (@length _)) in H. rewrite length_app in H. cbn in H. lia.
Qed.

Lemma step_quiescent (s : State) (e : Event) :
  is_start e = false -> quiescent s ->
  quiescent (step s e) /\ at_rest s (step s e).
Proof.
  intros He [Hidle Hclosed].
  destruct e as [intervalMs | | ms | p response | config]; cbn [step];
    try discriminate.
  - rewrite stopMonitoring_idle by assumption.
    repeat split; solve [apply Hidle | apply Hclosed].
  - rewrite advance_none by assumption.
    repeat split; solve [apply Hidle | apply Hclosed].
  - destruct (settle_cases p response s)
      as (R1 & _ & R3 & _ & R5 & [(R6 & R7 & R8) | (pr & sub & r & Hrest)]).
    + repeat split.
      * rewrite R1. apply Hidle.
      * rewrite R3. apply Hidle.
      * intros id. unfold is_open. rewrite R8. apply Hclosed.
      * assumption.
      * assumption.
      * assumption.
      * assumption.
      * apply settle_db, R7.
    + exfalso. destruct Hrest as (_ & _ & Hsub & Hc & _).
      specialize (Hclosed (owner pr)). unfold is_open in Hclosed.
      rewrite Hsub, Hc in Hclosed. discriminate.
  - repeat split; solve [apply Hidle | apply Hclosed].
Qed.

Lemma run_quiescent (events : list Event) (s : State) :
  forallb (fun e => negb (is_start e)) events = true -> quiescent s ->
  quiescent (run events s) /\ at_rest s (run events s).
Proof.
  revert s. induction events as [| e events IH]; intros s He Hs.
  - cbn. split; [assumption |]. repeat split.
  - cbn in He. apply andb_true_iff in He as [He Hes].
    apply negb_true_iff in He.
    destruct (step_quiescent s e He Hs) as [Hq (A1 & A2 & A3 & A4 & A5)].
    destruct (IH (step s e) Hes Hq) as [Hq' (B1 & B2 & B3 & B4 & B5)].
    cbn. split; [assumption |].
    unfold at_rest, run in *. repeat split; congruence.
Qed.

(** C5. Once [stopMonitoring] has returned, whatever happens short of a
    new start (time passing over any number of tick boundaries, promises
    of probes still in flight settling, settings changing, further stops)
    pushes nothing, persists nothing and makes no probe; the scheduler
    stays Idle, and stopping an Idle scheduler changes nothing, be it the
    one just stopped or the one just constructed. *)
Theorem C5_nothing_after_stop :
  forall tauri native config database before after,
    forallb (fun e => negb (is_start e)) after = true ->
    let s := run (before ++ [StopMonitoring]) (init tauri native config database) in
    let s' := run after s in
    results s' = results s /\
    savePing_calls s' = savePing_calls s /\
    length (probes s') = length (probes s) /\
    table (db s') = table (db s) /\
    open_ids s' = [] /\
    idle s' /\
    stopMonitoring s' = s' /\
    stopMonitoring (init tauri native config database) =
      init tauri native config database.
Proof.
  intros tauri native config database before after Hafter s s'.
  assert (Hq : quiescent s).
  { subst s. rewrite run_app. cbn [run fold_left step].
    apply stopMonitoring_quiescent, run_invariant, init_invariant. }
  destruct (run_quiescent after s Hafter Hq)
    as [[Hidle Hclosed] (A1 & A2 & A3 & A4 & A5)].
  fold s' in Hidle, Hclosed, A1, A2, A3, A4, A5.
  repeat split; try assumption.
  - rewrite A5. reflexivity.
  - unfold open_ids.
    destruct (List.filter (is_open s') (seq 0 (length (subscriptions s'))))
      as [| id l] eqn:Hf; [reflexivity |].
    assert (Hin : List.In id (List.filter (is_open s')
                                (seq 0 (length (subscriptions s')))))
      by (rewrite Hf; left; reflexivity).
    apply List.filter_In in Hin as [_ Hin]. rewrite Hclosed in Hin. discriminate.
  - apply Hidle.
  - apply Hidle.
  - apply stopMonitoring_idle, Hidle.
Qed.

(** ** The storage does not reach the scheduler *)

Lemma with_storage_self (s : State) : with_storage (db s) (console s) s = s.
Proof. destruct s; reflexivity. Qed.

Lemma fire_storage d c (s : State) (id : nat) :
  fire (with_storage d c s) id = with_storage d c (fire s id).
Proof.
  unfold fire. cbn [subscriptions with_storage set_console set_db now].
  destruct (subscriptions s !! id) as [sub |]; [| reflexivity].
  destruct (closed sub); [reflexivity |].
  destruct (due sub) as [t |]; [| reflexivity].
  destruct (t <=? now s); reflexivity.
Qed.

Lemma fold_fire_storage d c (ids : list nat) (s : State) :
  fold_left fire ids (with_storage d c s) = with_storage d c (fold_left fire ids s).
Proof.
  revert s. induction ids as [| id ids IH]; intros s; [reflexivity |].
  cbn [fold_left]. rewrite fire_storage. apply IH.
Qed.

Lemma run_timers_storage d c (s : State) :
  run_timers (with_storage d c s) = with_storage d c (run_timers s).
Proof. unfold run_timers. apply fold_fire_storage. Qed.

Lemma elapse_storage d c (n : nat) (s : State) :
  elapse n (with_storage d c s) = with_storage d c (elapse n s).
Proof.
  revert s. induction n as [| n IH]; intros s; [reflexivity |].
  cbn [elapse].
  change (set_now (now (with_storage d c s) + 1) (with_storage d c s))
    with (with_storage d c (set_now (now s + 1) s)).
  rewrite run_timers_storage. apply IH.
Qed.

Lemma settle_storage d c (p : nat) (response : Settled Z) (s : State) :
  exists d' c',
    settle p response (with_storage d c s) = with_storage d' c' (settle p response s).
Proof.
  unfold settle, with_storage. state_fields.
  destruct (probes s !! p) as [pr |]; [| eauto].
  destruct (pending pr); [| eauto].
  state_fields.
  destruct (subscriptions s !! owner pr) as [sub |]; [| eauto].
  destruct (negb (closed sub) && bool_decide (inner sub = Some p)); [| eauto].
  destruct (measureLatency (transport pr) (started pr) (now s) response)
    as [n out].
  destruct n as [r | err]; unfold on_result, get_pingTarget; state_fields;
    repeat match goal with
    | |- context [savePing ?a ?b ?t] =>
        destruct (savePing a b t) as [? [? ?]]
    end; state_fields; eauto.
Qed.

Lemma step_storage d c (s : State) (e : Event) :
  exists d' c', step (with_storage d c s) e = with_storage d' c' (step s e).
Proof.
  destruct e as [intervalMs | | ms | p response | config]; cbn [step].
  - exists d, c. unfold startMonitoring, stopMonitoring. cbn.
    destruct (pollingSubscription s); reflexivity.
  - exists d, c. unfold stopMonitoring. cbn.
    destruct (pollingSubscription s); reflexivity.
  - exists d, c. unfold advance.
    rewrite run_timers_storage. apply elapse_storage.
  - apply settle_storage.
  - exists d, c. reflexivity.
Qed.

Lemma run_storage d c (events : list Event) (s : State) :
  exists d' c', run events (with_storage d c s) = with_storage d' c' (run events s).
Proof.
  revert d c s. induction events as [| e events IH]; intros d c s.
  - exists d, c. reflexivity.
  - cbn. destruct (step_storage d c s e) as (d1 & c1 & H1).
    rewrite H1. apply IH.
Qed.

Lemma init_storage (tauri native : bool) (config : MonitoringConfig)
    (d1 d2 : DatabaseService) :
  init tauri native config d1 = with_storage d1 [] (init tauri native config d2).
Proof. reflexivity. Qed.

(** C8. [savePing] never rejects: when the write fails the error is
    logged by the repository and the promise is fulfilled all the same.
    And a run over a database that rejects every write delivers and keeps
    what the same run over any other database does: the history, the
    measurements handed on with their targets, the probes made, the
    subscriptions, the clock and the monitoring flag are the same; and
    the two runs differ in the database and the console only. *)
Theorem C8_storage_failure_is_contained :
  (forall database result target,
     fst (snd (savePing database result target)) = Resolved tt) /\
  (forall err result target,
     savePing (failing_db err) result target =
       (failing_db err, (Resolved tt, [("Failed to persist ping:", err)]))) /\
  (forall tauri native config err database events,
     let failing := run events (init tauri native config (failing_db err)) in
     let s := run events (init tauri native config database) in
     results failing = results s /\
     savePing_calls failing = savePing_calls s /\
     probes failing = probes s /\
     subscriptions failing = subscriptions s /\
     pollingSubscription failing = pollingSubscription s /\
     isMonitoring failing = isMonitoring s /\
     now failing = now s /\
     failing = with_storage (db failing) (console failing) s).
Proof.
  split; [| split].
  - intros database result target. unfold savePing.
    destruct (negb (isInitialized database)); [reflexivity |].
    destruct (execute database _); reflexivity.
  - reflexivity.
  - intros tauri native config err database events failing s.
    subst failing s.
    rewrite (init_storage tauri native config (failing_db err) database).
    destruct (run_storage (failing_db err) [] events
                (init tauri native config database)) as (d' & c' & H).
    rewrite H. repeat split.
Qed.

(** ** The target of a probe and the target of its record *)

(** C9. Every tick calls the transport with the target the settings hold
    at that tick, and every delivered result is handed to [savePing] with
    the target the settings hold at the delivery.  When the target changes
    while a probe is in flight these differ: the probe below went to
    8.8.8.8 and its measurement is recorded for 1.1.1.1. *)
Theorem C9_record_target_differs_from_probe_target :
  (forall id sub t s,
     probes (tick id sub t s) =
       probes s ++
         [{| transport := select_transport (isTauri s) (isNativePlatform s);
             url := pingTarget (settings s); started := now s; owner := id;
             pending := true |}]) /\
  (forall result s,
     savePing_calls (on_result result s) =
       savePing_calls s ++ [(result, pingTarget (settings s))]) /\
  (let s := run target_change_in_flight
              (init true false DEFAULT_monitoringConfig working_db) in
   map url (probes s) = ["8.8.8.8"] /\
   savePing_calls s =
     [({| latencyMs := Some 42; timestamp := 0; status := StatusOk |}, "1.1.1.1")] /\
   table (db s) = [(0, Some 42, 1, "1.1.1.1")]).
Proof.
  split; [| split].
  - reflexivity.
  - intros result s. apply on_result_fields.
  - vm_compute. repeat split.
Qed.

(** ** The statistics: jitter *)

Lemma last_cons_default {A : Type} (l : list A) (a d : A) :
  List.last (a :: l) d = List.last l a.
Proof.
  revert a d. induction l as [| b l IH]; intros a d; [reflexivity |].
  change (List.last (a :: b :: l) d) with (List.last (b :: l) d).
  rewrite !IH. reflexivity.
Qed.

(** C2. The running estimate over the Ok latencies: one more Ok
    measurement updates the estimate so far by [(|L - last| - J) / 16],
    failed measurements contribute nothing, and the two reference
    histories [10, 20, 30] and [10, 20, 10] both give 1.2109375, through
    0.625 after the first difference. *)
Theorem C2_jitter_reference_cases :
  (forall J previous latencies latency,
     jitter_from J previous (latencies ++ [latency]) =
       jitter_update (jitter_from J previous latencies)
         (List.last latencies previous) latency) /\
  (forall history t,
     (jitter (history ++ [error_result t]) == jitter history)%Q) /\
  (jitter (map ok_measurement [10; 20]%Z) == 0.625)%Q /\
  (jitter (map ok_measurement [10; 20; 30]%Z) == 1.2109375)%Q /\
  (jitter (map ok_measurement [10; 20; 10]%Z) == 1.2109375)%Q.
Proof.
  split; [| split; [| split; [| split]]].
  - intros J previous latencies. revert J previous.
    induction latencies as [| l latencies IH]; intros J previous latency.
    + reflexivity.
    + cbn [app jitter_from]. rewrite IH. f_equal.
      symmetry. apply last_cons_default.
  - intros history t. unfold jitter, ok_latencies.
    rewrite omap_app. cbn. rewrite app_nil_r. reflexivity.
  - vm_compute. reflexivity.
  - vm_compute. reflexivity.
  - vm_compute. reflexivity.
Qed.

(** ** The cadence of a single loop *)

Lemma tick_times_nil (t P hi : Z) : 0 < P -> hi < t -> tick_times t P hi = [].
Proof.
  intros HP Hlt. unfold tick_times.
  assert (H : (hi - t) / P < 0) by (apply Z.div_lt_upper_bound; lia).
  replace (Z.to_nat ((hi - t) / P + 1)) with 0%nat by lia. reflexivity.
Qed.

Lemma tick_times_cons (t P hi : Z) :
  0 < P -> t <= hi -> tick_times t P hi = t :: tick_times (t + P) P hi.
Proof.
  intros HP Hle. unfold tick_times.
  assert (Hq : 0 <= (hi - t) / P) by (apply Z.div_pos; lia).
  replace (hi - (t + P)) with ((hi - t) + (-1) * P) by lia.
  rewrite Z.div_add by lia.
  replace ((hi - t) / P + -1 + 1) with ((hi - t) / P) by lia.
  replace (Z.to_nat ((hi - t) / P + 1)) with (S (Z.to_nat ((hi - t) / P))) by lia.
  cbn [seq map]. f_equal; [lia |].
  rewrite <- seq_shift, map_map. apply map_ext. intros k. lia.
Qed.

Lemma sole_loop_set_now (s : State) (id : nat) (sub : Subscription) (t : Z) :
  sole_loop s id sub -> sole_loop (set_now t s) id sub.
Proof. intros H. exact H. Qed.

Lemma fire_wait (s : State) (id : nat) (sub : Subscription) (t : Z) :
  subscriptions s !! id = Some sub -> due sub = Some t -> now s < t ->
  fire s id = s.
Proof.
  intros Hl Hd Hlt. unfold fire. rewrite Hl, Hd.
  destruct (closed sub); [reflexivity |].
  replace (t <=? now s) with false by lia. reflexivity.
Qed.

Lemma fire_tick (s : State) (id : nat) (sub : Subscription) (t : Z) :
  subscriptions s !! id = Some sub -> closed sub = false ->
  due sub = Some t -> t <= now s ->
  fire s id = tick id sub t s.
Proof.
  intros Hl Hc Hd Hle. unfold fire. rewrite Hl, Hc, Hd.
  replace (t <=? now s) with true by lia. reflexivity.
Qed.

Lemma tick_sole_loop (s : State) (id : nat) (sub : Subscription) (t : Z) :
  sole_loop s id sub ->
  sole_loop (tick id sub t s) id (rearmed sub t (length (probes s))).
Proof.
  intros (Hl & Hc & Hone). unfold tick, sole_loop. state_fields.
  split; [| split].
  - apply list_lookup_insert_eq. eapply lookup_lt_Some, Hl.
  - reflexivity.
  - intros id' Hopen. apply Hone.
    rewrite <- Hopen. symmetry. apply is_open_frame. state_fields.
    apply (closed_insert_same _ _ sub); [assumption | cbn; congruence].
Qed.

Lemma elapse_add (a b : nat) (s : State) :
  elapse (a + b) s = elapse b (elapse a s).
Proof.
  revert s. induction a as [| a IH]; intros s; [reflexivity |].
  cbn [Nat.add elapse]. apply IH.
Qed.

(** Before the timer is due, only the clock moves. *)
Lemma elapse_wait (n : nat) (s : State) (id : nat) (sub : Subscription) (t : Z) :
  sole_loop s id sub -> due sub = Some t -> now s + Z.of_nat n < t ->
  elapse n s = set_now (now s + Z.of_nat n) s.
Proof.
  revert s. induction n as [| n IH]; intros s Hs Hd Hlt.
  - cbn. destruct s; unfold set_now; cbn. f_equal. lia.
  - cbn [elapse].
    assert (Hs1 := sole_loop_set_now s id sub (now s + 1) Hs).
    destruct Hs1 as (Hl & Hc & Hone).
    rewrite (run_timers_single _ id Hone).
    rewrite (fire_wait _ id sub t Hl Hd) by (cbn; lia).
    rewrite IH by (first [exact Hs | exact Hd | cbn; lia]).
    unfold set_now; cbn. f_equal. lia.
Qed.

(** When the clock reaches the due time, the tick happens. *)
Lemma elapse_to_due (s : State) (id : nat) (sub : Subscription) (t : Z) :
  sole_loop s id sub -> due sub = Some t -> now s < t ->
  elapse (Z.to_nat (t - now s)) s = tick id sub t (set_now t s).
Proof.
  intros Hs Hd Hlt.
  replace (Z.to_nat (t - now s)) with (Z.to_nat (t - now s - 1) + 1)%nat by lia.
  rewrite elapse_add.
  rewrite (elapse_wait _ s id sub t Hs Hd) by lia.
  cbn [elapse]. state_fields.
  replace (now s + Z.of_nat (Z.to_nat (t - now s - 1)) + 1) with t by lia.
  change (set_now t (set_now _ s)) with (set_now t s).
  destruct (sole_loop_set_now s id sub t Hs) as (Hl & Hc & Hone).
  rewrite (run_timers_single _ id Hone).
  apply fire_tick; try assumption. cbn. lia.
Qed.

#[local] Arguments timer_delay : simpl never.

(** An interval a timer can hold is its delay; the delay of a positive
    interval is positive. *)
Lemma timer_delay_within (P : Z) : P <= TIMEOUT_MAX -> timer_delay P = P.
Proof.
  intros HP. unfold timer_delay. destruct (Z.ltb_spec TIMEOUT_MAX P); [lia |].
  reflexivity.
Qed.

Lemma timer_delay_positive (P : Z) : 0 < P -> 0 < timer_delay P.
Proof.
  intros HP. unfold timer_delay. destruct (Z.ltb_spec TIMEOUT_MAX P); lia.
Qed.

(** The probes a loop makes while [n] milliseconds pass: one at every
    due time, the first at [t]. *)
Lemma elapse_ticks (n : nat) :
  forall (s : State) (id : nat) (sub : Subscription) (t : Z),
    sole_loop s id sub -> due sub = Some t -> 0 < period sub -> now s < t ->
    probes (elapse n s) =
      probes s ++
        map (probe_at s id)
          (tick_times t (timer_delay (period sub)) (now s + Z.of_nat n)).
Proof.
  induction n as [n IH] using lt_wf_ind.
  intros s id sub t Hs Hd HP Hlt.
  pose proof (timer_delay_positive _ HP) as HD.
  destruct (Z_lt_le_dec (now s + Z.of_nat n) t) as [Hbefore | Hreach].
  - rewrite (elapse_wait n s id sub t Hs Hd Hbefore).
    rewrite tick_times_nil by assumption.
    cbn. rewrite app_nil_r. reflexivity.
  - set (a := Z.to_nat (t - now s)). set (b := (n - a)%nat).
    replace (elapse n s) with (elapse (a + b) s) by (f_equal; lia).
    rewrite elapse_add. subst a. rewrite (elapse_to_due s id sub t Hs Hd Hlt).
    pose proof (tick_sole_loop (set_now t s) id sub t
                  (sole_loop_set_now s id sub t Hs)) as Hs'.
    rewrite (IH b ltac:(lia) _ id _ (t + timer_delay (period sub)) Hs').
    + change (probe_at (tick id sub t (set_now t s)) id) with (probe_at s id).
      cbn [period rearmed].
      change (now (tick id sub t (set_now t s))) with t.
      change (probes (tick id sub t (set_now t s)))
        with (probes s ++ [probe_at s id t]).
      rewrite (tick_times_cons t (timer_delay (period sub))) by lia.
      rewrite <- app_assoc. cbn [app map]. do 4 f_equal. lia.
    + cbn. replace (0 <=? period sub) with true by lia. reflexivity.
    + assumption.
    + cbn. lia.
Qed.

(** Time passing over exactly one due time: one tick, at that time. *)
Lemma advance_one_tick (ms : Z) (s : State) (id : nat) (sub : Subscription)
    (t : Z) :
  sole_loop s id sub -> due sub = Some t -> 0 < period sub ->
  now s <= t -> t <= now s + ms -> now s + ms < t + timer_delay (period sub) ->
  advance ms s = set_now (now s + ms) (tick id sub t (set_now t s)).
Proof.
  intros Hs Hd HP Hle Hreach Hnext. unfold advance.
  assert (Hdue' : due (rearmed sub t (length (probes s))) =
                    Some (t + timer_delay (period sub))).
  { cbn. replace (0 <=? period sub) with true by lia. reflexivity. }
  pose proof (tick_sole_loop (set_now t s) id sub t
                (sole_loop_set_now s id sub t Hs)) as Hs'.
  destruct Hs as (Hl & Hc & Hone).
  rewrite (run_timers_single _ id Hone).
  destruct (Z.eq_dec (now s) t) as [Heq | Hne].
  - rewrite (fire_tick s id sub t Hl Hc Hd) by lia.
    assert (Hself : set_now t s = s) by (destruct s; cbn in *; subst; reflexivity).
    rewrite Hself in *.
    rewrite (elapse_wait _ _ id _ (t + timer_delay (period sub)) Hs' Hdue')
      by (cbn; lia).
    unfold set_now; cbn. f_equal. lia.
  - rewrite (fire_wait s id sub t Hl Hd) by lia.
    replace (Z.to_nat ms)
      with (Z.to_nat (t - now s) + Z.to_nat (now s + ms - t))%nat by lia.
    rewrite elapse_add.
    rewrite (elapse_to_due s id sub t (conj Hl (conj Hc Hone)) Hd) by lia.
    rewrite (elapse_wait _ _ id _ (t + timer_delay (period sub)) Hs' Hdue')
      by (cbn; lia).
    unfold set_now; cbn. f_equal. lia.
Qed.

(** Time passing short of the due time. *)
Lemma advance_wait (ms : Z) (s : State) (id : nat) (sub : Subscription)
    (t : Z) :
  sole_loop s id sub -> due sub = Some t -> 0 <= ms -> now s + ms < t ->
  advance ms s = set_now (now s + ms) s.
Proof.
  intros Hs Hd Hms Hlt. unfold advance.
  destruct Hs as (Hl & Hc & Hone).
  rewrite (run_timers_single _ id Hone).
  rewrite (fire_wait s id sub t Hl Hd) by lia.
  rewrite (elapse_wait _ s id sub t (conj Hl (conj Hc Hone)) Hd) by lia.
  f_equal. lia.
Qed.

(** A loop started on the freshly constructed service. *)
Lemma start_from_init (tauri native : bool) (config : MonitoringConfig)
    (database : DatabaseService) (intervalMs : option Z) :
  let s0 := init tauri native config database in
  let P := resolve_interval intervalMs s0 in
  startMonitoring intervalMs s0 =
    mkState 0 tauri native config (Some 0%nat) [] true
      [{| closed := false; period := P; due := Some 0; inner := None |}]
      [] [] database [].
Proof.
  intros s0 P. unfold startMonitoring.
  rewrite stopMonitoring_idle by (split; reflexivity).
  destruct intervalMs; reflexivity.
Qed.

Lemma singleton_sole_loop (s : State) (sub : Subscription) :
  subscriptions s = [sub] -> closed sub = false -> sole_loop s 0 sub.
Proof.
  intros Hsubs Hc. unfold sole_loop, is_open. rewrite Hsubs.
  split; [reflexivity | split; [assumption |]].
  intros [| id']; [reflexivity |]. cbn. discriminate.
Qed.

Lemma startMonitoring_platform (intervalMs : option Z) (s : State) :
  isTauri (startMonitoring intervalMs s) = isTauri s /\
  isNativePlatform (startMonitoring intervalMs s) = isNativePlatform s.
Proof.
  unfold startMonitoring, stopMonitoring.
  destruct (pollingSubscription s); split; reflexivity.
Qed.

(** The loop [startMonitoring] creates is the only one. *)
Lemma startMonitoring_sole_loop (intervalMs : option Z) (s : State) :
  invariant s ->
  sole_loop (startMonitoring intervalMs s) (length (subscriptions s))
    {| closed := false; period := resolve_interval intervalMs s;
       due := Some (now s + 0); inner := None |}.
Proof.
  intros Hs.
  destruct (startMonitoring_fields intervalMs s)
    as (_ & _ & _ & _ & _ & _ & _ & R8 & _ & R10).
  rewrite stopMonitoring_length in R8.
  split; [| split].
  - rewrite R10, lookup_app_r by (rewrite stopMonitoring_length; lia).
    rewrite stopMonitoring_length, Nat.sub_diag. reflexivity.
  - reflexivity.
  - intros id' Hopen. apply is_open_open_at in Hopen.
    apply (inv_single _ (startMonitoring_invariant intervalMs s Hs)) in Hopen.
    congruence.
Qed.

(** The probes made by a loop of period [P] in the [d] ms after its
    start. *)
Lemma start_advance_probes (intervalMs : option Z) (d : Z) (s : State) :
  invariant s ->
  let P := resolve_interval intervalMs s in
  0 < P -> 0 <= d ->
  probes (run [StartMonitoring intervalMs; Advance d] s) =
    probes s ++
      map (fun k => probe_at s (length (subscriptions s))
                      (now s + Z.of_nat k * timer_delay P))
          (seq 0 (Z.to_nat (d / timer_delay P + 1))).
Proof.
  intros Hinv P HP Hd. cbn [run fold_left step].
  pose proof (timer_delay_positive _ HP) as HD.
  pose proof (startMonitoring_sole_loop intervalMs s Hinv) as Hs1.
  destruct (startMonitoring_fields intervalMs s)
    as (_ & _ & R3 & R4 & R5 & _).
  destruct (startMonitoring_platform intervalMs s) as (Q1 & Q2).
  set (s1 := startMonitoring intervalMs s) in *.
  set (id := length (subscriptions s)) in *.
  set (sub0 := {| closed := false; period := _; due := _; inner := None |}) in *.
  assert (Hprobe : probe_at s1 id = probe_at s id).
  { unfold probe_at, get_pingTarget. rewrite R4, Q1, Q2. reflexivity. }
  unfold advance.
  destruct Hs1 as (Hl & Hc & Hone).
  rewrite (run_timers_single _ id Hone).
  rewrite (fire_tick s1 id sub0 (now s + 0) Hl Hc) by (first [reflexivity | lia]).
  pose proof (tick_sole_loop s1 id sub0 (now s + 0) (conj Hl (conj Hc Hone)))
    as Hs'.
  rewrite (elapse_ticks _ _ id _ (now s + 0 + timer_delay P) Hs').
  - cbn [period rearmed].
    change (probes (tick id sub0 (now s + 0) s1))
      with (probes s1 ++ [probe_at s1 id (now s1)]).
    change (now (tick id sub0 (now s + 0) s1)) with (now s1).
    change (probe_at (tick id sub0 (now s + 0) s1) id) with (probe_at s1 id).
    change (period sub0) with P.
    rewrite R3, R5, Hprobe, <- app_assoc. f_equal.
    replace (now s + Z.of_nat (Z.to_nat d)) with (now s + d) by lia.
    change ([probe_at s id (now s)] ++
            map (probe_at s id)
              (tick_times (now s + 0 + timer_delay P) (timer_delay P) (now s + d)))
      with (map (probe_at s id)
              (now s :: tick_times (now s + 0 + timer_delay P) (timer_delay P)
                          (now s + d))).
    replace (now s + 0 + timer_delay P) with (now s + timer_delay P) by lia.
    rewrite <- (tick_times_cons (now s) (timer_delay P) (now s + d)) by lia.
    unfold tick_times. rewrite map_map.
    replace (now s + d - now s) with d by lia. reflexivity.
  - cbn [due rearmed]. change (period sub0) with P.
    replace (0 <=? P) with true by lia. reflexivity.
  - exact HP.
  - change (now (tick id sub0 (now s + 0) s1)) with (now s1). lia.
Qed.

(** An interval the timer cannot hold is run as 1 ms: the loop probes at
    every millisecond. *)
Lemma interval_beyond_timer_range (intervalMs : option Z) (d : Z) (s : State) :
  invariant s ->
  TIMEOUT_MAX < resolve_interval intervalMs s -> 0 <= d ->
  probes (run [StartMonitoring intervalMs; Advance d] s) =
    probes s ++
      map (fun k => probe_at s (length (subscriptions s)) (now s + Z.of_nat k))
          (seq 0 (Z.to_nat (d + 1))).
Proof.
  intros Hinv HP Hd.
  rewrite (start_advance_probes intervalMs d s Hinv)
    by (unfold TIMEOUT_MAX in HP; lia).
  assert (HD : timer_delay (resolve_interval intervalMs s) = 1).
  { unfold timer_delay.
    destruct (Z.ltb_spec TIMEOUT_MAX (resolve_interval intervalMs s)); lia. }
  rewrite HD, Z.div_1_r. f_equal. apply map_ext. intros k.
  rewrite Z.mul_1_r. reflexivity.
Qed.


(** ** Failures do not stop the loop *)

Lemma fire_armed (s : State) (id id' : nat) : armed s id -> armed (fire s id') id.
Proof.
  intros (sub & Hl & Hc & HP & Hd). unfold fire.
  destruct (subscriptions s !! id') as [sub' |] eqn:Hl'; [| exists sub; auto].
  destruct (closed sub'); [exists sub; auto |].
  destruct (due sub') as [t |]; [| exists sub; auto].
  destruct (t <=? now s); [| exists sub; auto].
  unfold armed, tick. state_fields.
  destruct (decide (id' = id)) as [-> | Hne].
  - rewrite Hl in Hl'. injection Hl' as <-.
    eexists. split; [apply list_lookup_insert_eq; eapply lookup_lt_Some, Hl |].
    cbn. replace (0 <=? period sub) with true by lia. eauto.
  - exists sub. rewrite list_lookup_insert_ne by assumption. auto.
Qed.

Lemma advance_armed (ms : Z) (s : State) (id : nat) :
  armed s id -> armed (advance ms s) id.
Proof.
  assert (Hfold : forall ids s, armed s id -> armed (fold_left fire ids s) id).
  { intros ids. induction ids as [| a ids IH]; intros s' H; [exact H |].
    cbn. apply IH, fire_armed, H. }
  assert (Helapse : forall n s, armed s id -> armed (elapse n s) id).
  { intros n. induction n as [| n IH]; intros s' H; [exact H |].
    cbn. apply IH. apply Hfold. exact H. }
  intros H. apply Helapse, Hfold, H.
Qed.

Lemma settle_armed (p : nat) (response : Settled Z) (s : State) (id : nat) :
  armed s id -> armed (settle p response s) id.
Proof.
  intros (sub & Hl & Hc & HP & Hd).
  destruct (settle_cases p response s)
    as (_ & _ & _ & _ & _ & [(_ & _ & R8) | (pr & sub' & r & Hrest)]).
  - exists sub. rewrite R8. auto.
  - destruct Hrest as (_ & _ & Hsub & _ & _ & _ & _ & _ & R8).
    unfold armed. rewrite R8.
    destruct (decide (owner pr = id)) as [Heq | Hne].
    + rewrite Heq in *. rewrite list_lookup_alter_eq, Hl. cbn.
      eexists. split; [reflexivity |]. cbn.
      destruct Hd as [t Ht]. rewrite Ht. eauto.
    + exists sub. rewrite list_lookup_alter_ne by assumption. auto.
Qed.

Lemma run_armed (events : list Event) (s : State) (id : nat) :
  forallb (fun e => negb (halting e)) events = true ->
  armed s id -> armed (run events s) id.
Proof.
  revert s. induction events as [| e events IH]; intros s He Hs; [exact Hs |].
  cbn in He. apply andb_true_iff in He as [He Hes]. apply negb_true_iff in He.
  cbn. apply IH; [assumption |].
  destruct e as [intervalMs | | ms | p response | config]; cbn [step];
    try discriminate.
  - apply advance_armed, Hs.
  - apply settle_armed, Hs.
  - exact Hs.
Qed.

(** A probe [switchMap] still listens to is published when it settles. *)
Lemma settle_listening (p : nat) (response : Settled Z) (s : State)
    (pr : Probe) (sub : Subscription) :
  probes s !! p = Some pr -> pending pr = true ->
  subscriptions s !! owner pr = Some sub ->
  closed sub = false -> inner sub = Some p ->
  exists r,
    fst (measureLatency (transport pr) (started pr) (now s) response) = Next r /\
    pushed (settle p response s) = pushed s ++ [r] /\
    results (settle p response s) = slice (-50) (results s ++ [r]) /\
    subscriptions (settle p response s) =
      alter inner_complete (owner pr) (subscriptions s).
Proof.
  intros Hp Hpen Hsub Hc Hi.
  destruct (settle_cases p response s)
    as (_ & _ & _ & _ & _ & [(_ & R7 & _) | (pr' & sub' & r & Hrest)]).
  - exfalso. revert R7. unfold settle. rewrite Hp, Hpen. state_fields.
    rewrite Hsub, Hc, Hi. rewrite bool_decide_eq_true_2 by reflexivity.
    cbn [negb andb].
    destruct (measureLatency (transport pr) (started pr) (now s) response)
      as [[r | err] out];
      match goal with
      | |- context [on_result ?r ?s0] =>
          destruct (on_result_fields r s0) as (_ & R2 & _)
      end; state_fields; rewrite R2; state_fields; intros H;
      apply (f_equal (@length _)) in H; rewrite length_app in H; cbn in H; lia.
  - destruct Hrest as (Hp' & _ & _ & _ & _ & Hr & R6 & R7 & R8).
    rewrite Hp in Hp'. injection Hp' as <-.
    exists r. unfold pushed. rewrite R7, map_app. auto.
Qed.

Lemma measureLatency_status (via : Transport) (start t : Z)
    (response : Settled Z) (r : PingResult) :
  fst (measureLatency via start t response) = Next r ->
  status r = status_of response.
Proof.
  destruct via, response; cbn; intros [= <-]; reflexivity.
Qed.

(** The pending probe of a loop settles: its measurement is pushed. *)
Lemma loop_settle (s : State) (pid : nat) (P T : Z) (response : Settled Z) :
  loop_state s pid P T ->
  let s' := settle pid response s in
  sole_loop s' 0
    {| closed := false; period := P; due := Some (T + P); inner := None |} /\
  length (probes s') = S pid /\
  now s' = now s /\
  isMonitoring s' = isMonitoring s /\
  exists r, pushed s' = pushed s ++ [r] /\ status r = status_of response.
Proof.
  intros ((Hl & Hc & Hone) & Hlen & (pr & Hp & Hpen & Hown) & Hnow) s'.
  rewrite <- Hown in Hl.
  destruct (settle_listening pid response s pr _ Hp Hpen Hl Hc eq_refl)
    as (r & Hr & Hpushed & _ & Hsubs).
  destruct (settle_cases pid response s) as (_ & _ & R3 & R4 & R5 & _).
  fold s' in Hpushed, Hsubs, R3, R4, R5. rewrite Hown in *.
  split; [| repeat split; try congruence].
  - unfold sole_loop, is_open. rewrite Hsubs. split; [| split].
    + rewrite list_lookup_alter_eq, Hl. reflexivity.
    + reflexivity.
    + intros [| id']; [reflexivity |].
      rewrite list_lookup_alter_ne by discriminate.
      intros H. apply (Hone (S id')). exact H.
  - exists r. split; [assumption |].
    eapply measureLatency_status, Hr.
Qed.

(** After the pending probe settled, time passes over the next tick. *)
Lemma loop_round (s : State) (pid : nat) (P T : Z) (response : Settled Z)
    (ms : Z) :
  loop_state s pid P T -> 0 < P -> P <= TIMEOUT_MAX ->
  T + P <= now s + ms -> now s + ms < T + P + P ->
  let s' := run [Settle pid response; Advance ms] s in
  loop_state s' (S pid) P (T + P) /\
  now s' = now s + ms /\
  isMonitoring s' = isMonitoring s /\
  exists r, pushed s' = pushed s ++ [r] /\ status r = status_of response.
Proof.
  intros Hloop HP Hmax Hreach Hnext s'.
  pose proof (timer_delay_within P Hmax) as HD.
  destruct (loop_settle s pid P T response Hloop)
    as (Hsole & Hlen & Hnow & Hmon & r & Hpushed & Hstatus).
  destruct Hloop as (_ & _ & _ & HT).
  subst s'. cbn [run fold_left step].
  set (s1 := settle pid response s) in *.
  rewrite (advance_one_tick ms s1 0%nat _ (T + P) Hsole eq_refl)
    by (cbn; rewrite ?HD; lia).
  pose proof (tick_sole_loop (set_now (T + P) s1) 0%nat _ (T + P)
                (sole_loop_set_now s1 0%nat _ (T + P) Hsole)) as Hsole'.
  split; [| split; [| split]].
  - split; [| split; [| split]].
    + destruct Hsole' as (Hl' & Hc' & Hone'). split; [| split].
      * state_fields. rewrite Hl'. unfold rearmed. state_fields.
        cbn [period]. replace (0 <=? P) with true by lia.
        rewrite Hlen, HD. reflexivity.
      * reflexivity.
      * exact Hone'.
    + unfold tick. state_fields. rewrite length_app, Hlen. cbn. lia.
    + unfold tick. state_fields. eexists. split; [| split].
      * rewrite lookup_app_r by lia. rewrite Hlen, Nat.sub_diag. reflexivity.
      * reflexivity.
      * reflexivity.
    + state_fields. lia.
  - state_fields. congruence.
  - exact Hmon.
  - exists r. split; [exact Hpushed | exact Hstatus].
Qed.

(** A loop started on the fresh service, up to its first tick. *)
Lemma loop_begin (tauri native : bool) (config : MonitoringConfig)
    (database : DatabaseService) (P d : Z) :
  0 < P -> P <= TIMEOUT_MAX -> 0 <= d < P ->
  let s := run [StartMonitoring (Some P); Advance d]
             (init tauri native config database) in
  loop_state s 0 P 0 /\ now s = d /\ isMonitoring s = true /\ pushed s = [].
Proof.
  intros HP Hmax Hd s. subst s. cbn [run fold_left step].
  pose proof (timer_delay_within P Hmax) as HD.
  rewrite start_from_init. cbn [resolve_interval].
  set (s1 := mkState _ _ _ _ _ _ _ _ _ _ _ _).
  set (sub0 := {| closed := false; period := P; due := Some 0; inner := None |}).
  assert (Hs1 : sole_loop s1 0 sub0) by (apply singleton_sole_loop; reflexivity).
  rewrite (advance_one_tick d s1 0%nat sub0 0 Hs1 eq_refl)
    by (cbn; rewrite ?HD; lia).
  split; [| split; [| split]]; [| reflexivity ..].
  split; [| split; [| split]].
  - apply singleton_sole_loop; [| reflexivity].
    cbn. replace (0 <=? P) with true by lia. rewrite HD. reflexivity.
  - reflexivity.
  - eexists. split; [reflexivity | split; reflexivity].
  - cbn. lia.
Qed.

(** A probe [switchMap] has dropped is not published when it settles. *)
Lemma settle_superseded (p : nat) (response : Settled Z) (s : State)
    (pr : Probe) (sub : Subscription) :
  probes s !! p = Some pr ->
  subscriptions s !! owner pr = Some sub ->
  inner sub <> Some p ->
  pushed (settle p response s) = pushed s /\
  results (settle p response s) = results s.
Proof.
  intros Hp Hsub Hi.
  destruct (settle_cases p response s)
    as (_ & _ & _ & _ & _ & [(R6 & R7 & _) | (pr' & sub' & r & Hrest)]).
  - unfold pushed. rewrite R6, R7. split; reflexivity.
  - exfalso. destruct Hrest as (Hp' & _ & Hsub' & _ & Hi' & _).
    rewrite Hp in Hp'. injection Hp' as <-.
    rewrite Hsub in Hsub'. injection Hsub' as <-.
    contradiction.
Qed.

Lemma scenario_split (P d0 d1 d2 d3 : Z) (e0 e1 e2 : string) (payload : Z) :
  three_failures_then_success P d0 d1 d2 d3 e0 e1 e2 payload =
    [StartMonitoring (Some P); Advance d0] ++
    [Settle 0 (Rejected e0); Advance (P - d0 + d1)] ++
    [Settle 1 (Rejected e1); Advance (P - d1 + d2)] ++
    [Settle 2 (Rejected e2); Advance (P - d2 + d3)] ++
    [Settle 3 (Resolved payload)].
Proof. reflexivity. Qed.

(** C4 as the code has it.  No event other than a stop or a restart ends
    a running loop of non-negative interval, a failed probe least of all;
    a probe that the next tick has replaced publishes nothing when it
    settles; and when three probes in a row fail and the next succeeds,
    each settling before the tick that follows it, in a loop whose
    interval the timer can hold (at most 2147483647 ms), exactly four
    measurements are pushed, the first three failed and the last Ok, four
    probes have been made, and the loop is still running. *)
Theorem C4_failures_do_not_halt_the_loop :
  (forall s id events,
     forallb (fun e => negb (halting e)) events = true ->
     armed s id -> armed (run events s) id) /\
  (forall s p response pr sub,
     probes s !! p = Some pr ->
     subscriptions s !! owner pr = Some sub ->
     inner sub <> Some p ->
     pushed (settle p response s) = pushed s /\
     results (settle p response s) = results s) /\
  (forall tauri native config database P d0 d1 d2 d3 e0 e1 e2 payload,
     0 < P -> P <= TIMEOUT_MAX ->
     0 <= d0 < P -> 0 <= d1 < P -> 0 <= d2 < P -> 0 <= d3 < P ->
     let s := run (three_failures_then_success P d0 d1 d2 d3 e0 e1 e2 payload)
                (init tauri native config database) in
     map status (pushed s) =
       [StatusError; StatusError; StatusError; StatusOk] /\
     results s = pushed s /\
     length (probes s) = 4%nat /\
     isMonitoring s = true /\
     armed s 0).
Proof.
  split; [exact (fun s id events => run_armed events s id) |].
  split; [exact (fun s p response pr sub =>
                   settle_superseded p response s pr sub) |].
  intros tauri native config database P d0 d1 d2 d3 e0 e1 e2 payload
    HP Hmax H0 H1 H2 H3 s.
  assert (Hinv : invariant s) by apply run_invariant, init_invariant.
  subst s. rewrite scenario_split in *. rewrite !run_app in *.
  destruct (loop_begin tauri native config database P d0 HP Hmax H0)
    as (L0 & N0 & M0 & P0).
  set (s0 := run [StartMonitoring (Some P); Advance d0] _) in *.
  destruct (loop_round s0 0 P 0 (Rejected e0) (P - d0 + d1) L0 HP Hmax)
    as (L1 & N1 & M1 & r0 & P1 & S0); [lia | lia |].
  set (s1 := run [Settle 0 (Rejected e0); Advance (P - d0 + d1)] s0) in *.
  destruct (loop_round s1 1 P (0 + P) (Rejected e1) (P - d1 + d2) L1 HP Hmax)
    as (L2 & N2 & M2 & r1 & P2 & S1); [lia | lia |].
  set (s2 := run [Settle 1 (Rejected e1); Advance (P - d1 + d2)] s1) in *.
  destruct (loop_round s2 2 P (0 + P + P) (Rejected e2) (P - d2 + d3) L2 HP Hmax)
    as (L3 & N3 & M3 & r2 & P3 & S2); [lia | lia |].
  set (s3 := run [Settle 2 (Rejected e2); Advance (P - d2 + d3)] s2) in *.
  destruct (loop_settle s3 3 P (0 + P + P + P) (Resolved payload) L3)
    as ((Hl & Hc & _) & Hlen & _ & M4 & r3 & P4 & S3).
  cbn [run fold_left step] in Hinv |- *.
  set (s4 := settle 3 (Resolved payload) s3) in *.
  assert (Hpushed : pushed s4 = [r0; r1; r2; r3]).
  { rewrite P4, P3, P2, P1, P0. reflexivity. }
  repeat split.
  - rewrite Hpushed. cbn. rewrite S0, S1, S2, S3. reflexivity.
  - rewrite (inv_history _ Hinv), Hpushed. reflexivity.
  - exact Hlen.
  - congruence.
  - eexists. split; [exact Hl |]. cbn. split; [reflexivity |].
    split; [lia | eauto].
Qed.

(** Against C4 read without the timing condition: these three probes fail
    and the fourth succeeds, but each failure arrives after the next tick
    has made [switchMap] drop its probe, and a single measurement is
    published. *)
Lemma C4_slow_failures_are_not_published :
  let s := run three_slow_failures_then_success
             (init true false DEFAULT_monitoringConfig working_db) in
  map started (probes s) = [0; 1000; 2000; 3000] /\
  map pending (probes s) = [false; false; false; false] /\
  pushed s = [{| latencyMs := Some 20; timestamp := 3500; status := StatusOk |}] /\
  length (pushed s) <> 4%nat.
Proof. vm_compute. repeat split. discriminate. Qed.

(** ** The theorems at concrete runs *)

(** C4 at a loop of 1000 ms: kept running through two failures, silent
    about a probe the second tick replaced, and publishing four
    measurements when its probes settle 10, 20, 30 and 40 ms after their
    ticks. *)
Lemma C4_failures_do_not_halt_the_loop_witness :
  (let s := run [StartMonitoring (Some 1000); Advance 0]
              (init true false DEFAULT_monitoringConfig working_db) in
   let events := [Settle 0 (Rejected "timeout"); Advance 5000;
                  Settle 5 (Rejected "refused")] in
   forallb (fun e => negb (halting e)) events = true /\
   armed s 0 /\ armed (run events s) 0) /\
  (let s := run [StartMonitoring (Some 1000); Advance 1000]
              (init true false DEFAULT_monitoringConfig working_db) in
   pushed (settle 0 (Rejected "timeout") s) = pushed s /\
   results (settle 0 (Rejected "timeout") s) = results s) /\
  (0 < 1000 /\ 1000 <= TIMEOUT_MAX /\
   0 <= 10 < 1000 /\ 0 <= 20 < 1000 /\ 0 <= 30 < 1000 /\
   0 <= 40 < 1000 /\
   let s := run (three_failures_then_success 1000 10 20 30 40
                   "timeout" "dns" "refused" 25)
              (init true false DEFAULT_monitoringConfig working_db) in
   map status (pushed s) =
     [StatusError; StatusError; StatusError; StatusOk] /\
   results s = pushed s /\
   length (probes s) = 4%nat /\
   isMonitoring s = true /\
   armed s 0).
Proof.
  assert (Harmed :
    armed (run [StartMonitoring (Some 1000); Advance 0]
             (init true false DEFAULT_monitoringConfig working_db)) 0).
  { eexists. split; [vm_compute; reflexivity |].
    split; [reflexivity | split; [discriminate | eexists; reflexivity]]. }
  split; [| split].
  - split; [reflexivity |]. split; [exact Harmed |].
    apply (proj1 C4_failures_do_not_halt_the_loop); [reflexivity | exact Harmed].
  - eapply (proj1 (proj2 C4_failures_do_not_halt_the_loop)).
    + vm_compute. reflexivity.
    + vm_compute. reflexivity.
    + discriminate.
  - repeat (split; [unfold TIMEOUT_MAX; lia |]).
    apply (proj2 (proj2 C4_failures_do_not_halt_the_loop) true false
             DEFAULT_monitoringConfig working_db 1000 10 20 30 40
             "timeout" "dns" "refused" 25); unfold TIMEOUT_MAX; lia.
Defined.

(** C5 at a loop stopped with its second probe in flight. *)
Lemma C5_nothing_after_stop_witness :
  let before := [StartMonitoring (Some 1000); Advance 1500] in
  let after := [Advance 5000; Settle 1 (Resolved 7); StopMonitoring;
                UpdateMonitoringConfig
                  {| partial_pingTarget := Some "1.1.1.1";
                     partial_pingInterval := Some 2 |};
                Advance 3000] in
  forallb (fun e => negb (is_start e)) after = true /\
  let s := run (before ++ [StopMonitoring])
             (init true false DEFAULT_monitoringConfig working_db) in
  let s' := run after s in
  results s' = results s /\
  savePing_calls s' = savePing_calls s /\
  length (probes s') = length (probes s) /\
  table (db s') = table (db s) /\
  open_ids s' = [] /\
  idle s' /\
  stopMonitoring s' = s' /\
  stopMonitoring (init true false DEFAULT_monitoringConfig working_db) =
    init true false DEFAULT_monitoringConfig working_db.
Proof.
  split; [reflexivity |].
  apply (C5_nothing_after_stop true false DEFAULT_monitoringConfig working_db
           [StartMonitoring (Some 1000); Advance 1500]).
  reflexivity.
Defined.


(** * Further properties of the monitor *)

(** ** What a step does to the clock, the platform and the database *)

Lemma fire_now (s : State) (id : nat) : now (fire s id) = now s.
Proof.
  unfold fire. destruct (subscriptions s !! id) as [sub |]; [| reflexivity].
  destruct (closed sub); [reflexivity |].
  destruct (due sub) as [t |]; [| reflexivity].
  destruct (t <=? now s); reflexivity.
Qed.

Lemma run_timers_now (s : State) : now (run_timers s) = now s.
Proof.
  unfold run_timers. generalize (seq 0 (length (subscriptions s))).
  intros ids. revert s. induction ids as [| id ids IH]; intros s; [reflexivity |].
  cbn [fold_left]. rewrite IH. apply fire_now.
Qed.

Lemma elapse_now (n : nat) (s : State) : now (elapse n s) = now s + Z.of_nat n.
Proof.
  revert s. induction n as [| n IH]; intros s.
  - cbn. lia.
  - cbn [elapse]. rewrite IH, run_timers_now. cbn [now set_now]. lia.
Qed.

Lemma advance_now (ms : Z) (s : State) :
  now (advance ms s) = now s + Z.of_nat (Z.to_nat ms).
Proof. unfold advance. rewrite elapse_now, run_timers_now. reflexivity. Qed.

Lemma on_result_db (r : PingResult) (s : State) :
  db (on_result r s) = fst (savePing (db s) r (get_pingTarget s)).
Proof.
  unfold on_result. state_fields.
  change (get_pingTarget (set_results (push_result (results s) r) s))
    with (get_pingTarget s).
  destruct (savePing (db s) r (get_pingTarget s)) as [database [settled out]].
  reflexivity.
Qed.

(** The whole effect of a settling promise on the probes, the platform
    and the persistence. *)
Lemma settle_effect (p : nat) (response : Settled Z) (s : State) :
  let s' := settle p response s in
  isTauri s' = isTauri s /\
  isNativePlatform s' = isNativePlatform s /\
  (probes s' = probes s \/
   exists pr, probes s !! p = Some pr /\ pending pr = true /\
              probes s' = <[p := settled_probe pr]> (probes s)) /\
  ((savePing_calls s' = savePing_calls s /\ db s' = db s /\
    results s' = results s) \/
   exists pr r,
     probes s !! p = Some pr /\ pending pr = true /\
     fst (measureLatency (transport pr) (started pr) (now s) response) = Next r /\
     savePing_calls s' = savePing_calls s ++ [(r, get_pingTarget s)] /\
     db s' = persist (db s) (r, get_pingTarget s) /\
     probes s' = <[p := settled_probe pr]> (probes s)).
Proof.
  unfold settle.
  destruct (probes s !! p) as [pr |] eqn:Hp; [| cbn; tauto].
  destruct (pending pr) eqn:Hpen; [| cbn; tauto].
  state_fields.
  assert (Hquiet : forall c,
    let s' := set_console c (set_probes (<[p:=settled_probe pr]> (probes s)) s) in
    isTauri s' = isTauri s /\
    isNativePlatform s' = isNativePlatform s /\
    (probes s' = probes s \/
     exists pr0, Some pr = Some pr0 /\ pending pr0 = true /\
                 probes s' = <[p := settled_probe pr0]> (probes s)) /\
    ((savePing_calls s' = savePing_calls s /\ db s' = db s /\
      results s' = results s) \/
     exists pr0 r,
       Some pr = Some pr0 /\ pending pr0 = true /\
       fst (measureLatency (transport pr0) (started pr0) (now s) response) = Next r /\
       savePing_calls s' = savePing_calls s ++ [(r, get_pingTarget s)] /\
       db s' = persist (db s) (r, get_pingTarget s) /\
       probes s' = <[p := settled_probe pr0]> (probes s))).
  { intros c. cbn. split; [reflexivity |]. split; [reflexivity |].
    split; [right; exists pr; auto | left; auto]. }
  destruct (subscriptions s !! owner pr) as [sub |] eqn:Hsub;
    [| exact (Hquiet (console s))].
  destruct (negb (closed sub) && bool_decide (inner sub = Some p)) eqn:Hobs;
    [| exact (Hquiet _)].
  clear Hquiet.
  destruct (measureLatency_delivers (transport pr) (started pr) (now s) response)
    as (r & Hr & _).
  destruct (measureLatency (transport pr) (started pr) (now s) response)
    as [n out] eqn:Hm.
  cbn in Hr. subst n.
  match goal with
  | |- context [on_result r ?s0] =>
      destruct (on_result_fields r s0)
        as (R1 & R2 & R3 & R4 & R5 & R6 & R7 & R8 & R9 & R10);
      pose proof (on_result_db r s0) as R11
  end.
  state_fields. rewrite R4, R9, R10, R2, R11. state_fields.
  split; [reflexivity |]. split; [reflexivity |].
  split; [right; exists pr; auto |].
  right. exists pr, r. rewrite Hm. repeat split. exact Hpen.
Qed.

(** ** The monitoring flag *)

Lemma step_flag (s : State) (e : Event) :
  isMonitoring s = bool_decide (is_Some (pollingSubscription s)) ->
  isMonitoring (step s e) = bool_decide (is_Some (pollingSubscription (step s e))).
Proof.
  intros H. destruct e as [intervalMs | | ms | p response | config]; cbn [step].
  - destruct (startMonitoring_fields intervalMs s)
      as (_ & _ & _ & _ & _ & _ & _ & R8 & R9 & _).
    rewrite R8, R9. reflexivity.
  - destruct (stopMonitoring_fields s) as (_ & _ & _ & _ & _ & _ & _ & R8 & R9 & _).
    rewrite R8, R9. reflexivity.
  - destruct (advance_frame ms s) as (_ & _ & _ & _ & R5 & _ & R7 & _).
    rewrite R5, R7. exact H.
  - destruct (settle_cases p response s) as (R1 & _ & R3 & _).
    rewrite R1, R3. exact H.
  - exact H.
Qed.

(** X1. The monitoring flag says whether the service holds a subscription:
    in every state a run can reach, [isMonitoring] is true exactly when
    [pollingSubscription] is set. *)
Theorem isMonitoring_tracks_subscription :
  forall tauri native config database events,
    let s := run events (init tauri native config database) in
    isMonitoring s = bool_decide (is_Some (pollingSubscription s)).
Proof.
  intros tauri native config database events.
  generalize (init tauri native config database) (eq_refl :
    isMonitoring (init tauri native config database) =
    bool_decide (is_Some (pollingSubscription (init tauri native config database)))).
  induction events as [| e events IH]; intros s0 H0; cbn.
  - exact H0.
  - apply IH, step_flag, H0.
Qed.

(** ** Persistence follows the deliveries *)

Lemma step_persist (s : State) (e : Event) :
  exists fresh,
    savePing_calls (step s e) = savePing_calls s ++ fresh /\
    db (step s e) = fold_left persist fresh (db s).
Proof.
  destruct e as [intervalMs | | ms | p response | config]; cbn [step].
  - destruct (startMonitoring_fields intervalMs s) as (_ & R2 & _ & _ & _ & R6 & _).
    exists []. rewrite R2, R6, app_nil_r. split; reflexivity.
  - destruct (stopMonitoring_fields s) as (_ & R2 & _ & _ & _ & R6 & _).
    exists []. rewrite R2, R6, app_nil_r. split; reflexivity.
  - destruct (advance_frame ms s) as (_ & R2 & R3 & _).
    exists []. rewrite R2, R3, app_nil_r. split; reflexivity.
  - destruct (settle_effect p response s)
      as (_ & _ & _ & [(R1 & R2 & _) | (pr & r & _ & _ & _ & R1 & R2 & _)]).
    + exists []. rewrite R1, R2, app_nil_r. split; reflexivity.
    + exists [(r, get_pingTarget s)]. rewrite R1, R2. split; reflexivity.
  - exists []. cbn. rewrite app_nil_r. split; reflexivity.
Qed.

Lemma run_persist (events : list Event) (s : State) :
  exists fresh,
    savePing_calls (run events s) = savePing_calls s ++ fresh /\
    db (run events s) = fold_left persist fresh (db s).
Proof.
  revert s. induction events as [| e events IH]; intros s; cbn.
  - exists []. rewrite app_nil_r. split; reflexivity.
  - destruct (step_persist s e) as (f1 & A1 & A2).
    destruct (IH (step s e)) as (f2 & B1 & B2).
    exists (f1 ++ f2). unfold run in B1, B2.
    rewrite B1, B2, A1, A2, app_assoc, fold_left_app. split; reflexivity.
Qed.

Lemma persist_accepting (database : DatabaseService) (calls : list (PingResult * string)) :
  isInitialized database = true ->
  (forall row, execute database row = Resolved tt) ->
  let final := fold_left persist calls database in
  isInitialized final = true /\
  execute final = execute database /\
  table final = table database ++ map to_row calls.
Proof.
  revert database. induction calls as [| call calls IH]; intros database Hinit Hexec.
  - cbn. rewrite app_nil_r. auto.
  - cbn [fold_left].
    assert (Hstep : persist database call =
              {| isInitialized := true; execute := execute database;
                 table := table database ++ [to_row call] |}).
    { unfold persist, savePing. rewrite Hinit. cbn [negb].
      rewrite Hexec. reflexivity. }
    rewrite Hstep.
    destruct (IH {| isInitialized := true; execute := execute database;
                    table := table database ++ [to_row call] |}
                eq_refl Hexec) as (I1 & I2 & I3).
    cbn in I2, I3. cbn. rewrite I1, I2, I3, <- app_assoc. auto.
Qed.

(** X2. With an initialised database that accepts every write, the table
    after any run is the initial table followed by one row for each
    measurement delivered, in delivery order: its timestamp, its latency,
    1 or 0 for its status, and the target the settings held at the
    delivery. *)
Theorem persisted_rows_follow_deliveries :
  forall tauri native config database events,
    isInitialized database = true ->
    (forall row, execute database row = Resolved tt) ->
    let s := run events (init tauri native config database) in
    table (db s) = table database ++ map to_row (savePing_calls s) /\
    length (table (db s)) = (length (table database) + length (pushed s))%nat.
Proof.
  intros tauri native config database events Hinit Hexec s.
  destruct (run_persist events (init tauri native config database))
    as (fresh & Hcalls & Hdb).
  fold s in Hcalls, Hdb. cbn in Hcalls, Hdb.
  destruct (persist_accepting database fresh Hinit Hexec) as (_ & _ & Htable).
  rewrite Hdb, Hcalls, Htable. split; [reflexivity |].
  unfold pushed. rewrite Hcalls, length_app, !length_map. reflexivity.
Qed.

Lemma persist_coherent (database : DatabaseService)
    (calls : list (PingResult * string)) :
  Forall row_coherent (table database) ->
  Forall (fun call => measurement_ok (fst call)) calls ->
  Forall row_coherent (table (fold_left persist calls database)).
Proof.
  revert database. induction calls as [| call calls IH]; intros database Ht Hc.
  - exact Ht.
  - cbn [fold_left]. inversion Hc as [| ? ? Hok Hrest]; subst.
    apply IH; [| assumption].
    unfold persist, savePing.
    destruct (negb (isInitialized database)); [exact Ht |].
    destruct (execute database _); [| exact Ht].
    cbn. apply Forall_app. split; [exact Ht |].
    constructor; [| constructor].
    destruct call as [r target]. cbn. unfold measurement_ok in Hok. cbn in Hok.
    destruct (status r) eqn:Hs.
    + left. split; [reflexivity |]. apply Hok. reflexivity.
    + right. split; [reflexivity |].
      destruct (latencyMs r) as [l |] eqn:Hl; [| reflexivity].
      assert (H : StatusError = StatusOk) by (apply Hok; eauto).
      discriminate.
Qed.

(** X3. Whatever the database does with the writes, every row a run adds
    to a coherent table is coherent: the success flag is 1 with a latency
    stored, or 0 with none. *)
Theorem persisted_rows_are_coherent :
  forall tauri native config database events,
    Forall row_coherent (table database) ->
    let s := run events (init tauri native config database) in
    Forall row_coherent (table (db s)).
Proof.
  intros tauri native config database events Ht s.
  destruct (run_persist events (init tauri native config database))
    as (fresh & Hcalls & Hdb).
  fold s in Hcalls, Hdb. cbn in Hcalls, Hdb. rewrite Hdb.
  apply persist_coherent; [exact Ht |].
  assert (Hinv : invariant s) by apply run_invariant, init_invariant.
  pose proof (inv_measurements _ Hinv) as Hm.
  unfold pushed in Hm. rewrite Hcalls in Hm.
  rewrite List.Forall_map in Hm. exact Hm.
Qed.

(** ** A database that is not ready *)

Lemma on_result_console (r : PingResult) (s : State) :
  console (on_result r s) =
    console s ++ snd (snd (savePing (db s) r (get_pingTarget s))).
Proof.
  unfold on_result. state_fields.
  change (get_pingTarget (set_results (push_result (results s) r) s))
    with (get_pingTarget s).
  destruct (savePing (db s) r (get_pingTarget s)) as [database [settled out]].
  reflexivity.
Qed.

Lemma measureLatency_log (via : Transport) (start t : Z) (response : Settled Z) :
  Forall (fun entry => ~ persist_failure entry)
    (snd (measureLatency via start t response)).
Proof.
  unfold persist_failure.
  destruct via, response; cbn; repeat constructor; cbn; discriminate.
Qed.

Lemma unobserved_log_clean (pr : Probe) (t : Z) (response : Settled Z) :
  Forall (fun entry => ~ persist_failure entry) (unobserved_log pr t response).
Proof.
  unfold unobserved_log, persist_failure.
  destruct (transport pr), response; cbn; repeat constructor; cbn; discriminate.
Qed.

Lemma savePing_not_ready (database : DatabaseService) (r : PingResult)
    (target : string) :
  isInitialized database = false ->
  savePing database r target = (database, (Resolved tt, [])).
Proof. intros H. unfold savePing. rewrite H. reflexivity. Qed.

Lemma settle_not_ready (p : nat) (response : Settled Z) (s : State) :
  isInitialized (db s) = false ->
  Forall (fun entry => ~ persist_failure entry) (console s) ->
  Forall (fun entry => ~ persist_failure entry) (console (settle p response s)).
Proof.
  intros Hdb Hc. unfold settle.
  destruct (probes s !! p) as [pr |]; [| exact Hc].
  destruct (pending pr); [| exact Hc].
  state_fields.
  destruct (subscriptions s !! owner pr) as [sub |]; [| exact Hc].
  destruct (negb (closed sub) && bool_decide (inner sub = Some p)).
  - pose proof (measureLatency_log (transport pr) (started pr) (now s) response)
      as Hlog.
    destruct (measureLatency (transport pr) (started pr) (now s) response)
      as [[r | err] out]; cbn [snd] in Hlog; state_fields;
      rewrite on_result_console; state_fields;
      rewrite savePing_not_ready by exact Hdb; cbn [snd];
      rewrite app_nil_r; repeat (apply Forall_app; split); try assumption.
    constructor; [| constructor]. unfold persist_failure. cbn. discriminate.
  - state_fields. apply Forall_app. split; [exact Hc |].
    apply unobserved_log_clean.
Qed.

Lemma persist_not_ready (database : DatabaseService)
    (calls : list (PingResult * string)) :
  isInitialized database = false -> fold_left persist calls database = database.
Proof.
  intros H. induction calls as [| call calls IH]; [reflexivity |].
  cbn [fold_left]. unfold persist at 2.
  rewrite savePing_not_ready by exact H. exact IH.
Qed.

(** X4. While the database is not initialised, saving is a silent no-op:
    after any run the database is the one the service started with, and
    the console holds no line of a failed write. *)
Theorem uninitialised_database_is_left_alone :
  forall tauri native config database events,
    isInitialized database = false ->
    let s := run events (init tauri native config database) in
    db s = database /\
    Forall (fun entry => ~ persist_failure entry) (console s).
Proof.
  intros tauri native config database events Hinit s.
  assert (Hdb : forall evs, db (run evs (init tauri native config database)) = database).
  { intros evs.
    destruct (run_persist evs (init tauri native config database))
      as (fresh & _ & Hdb).
    rewrite Hdb. cbn. apply persist_not_ready, Hinit. }
  split; [apply Hdb |].
  subst s. induction events as [| e events IH] using rev_ind.
  - constructor.
  - rewrite run_app. cbn [run fold_left].
    specialize (Hdb events).
    set (s := run events (init tauri native config database)) in *.
    destruct e as [intervalMs | | ms | p response | partial]; cbn [step].
    + destruct (startMonitoring_fields intervalMs s)
        as (_ & _ & _ & _ & _ & _ & R7 & _).
      rewrite R7. exact IH.
    + destruct (stopMonitoring_fields s) as (_ & _ & _ & _ & _ & _ & R7 & _).
      rewrite R7. exact IH.
    + destruct (advance_frame ms s) as (_ & _ & _ & R4 & _).
      rewrite R4. exact IH.
    + apply settle_not_ready; [rewrite Hdb; exact Hinit | exact IH].
    + exact IH.
Qed.

(** ** The history is in time order *)

Lemma measureLatency_timestamp (via : Transport) (start t : Z)
    (response : Settled Z) (r : PingResult) :
  fst (measureLatency via start t response) = Next r -> timestamp r = t.
Proof. destruct via, response; cbn; intros [= <-]; reflexivity. Qed.

Lemma time_ordered_later (l : list PingResult) (t t' : Z) :
  t <= t' -> time_ordered l t -> time_ordered l t'.
Proof.
  intros Hle [Hs Hb]. split; [exact Hs |].
  eapply Forall_impl; [exact Hb |]. cbn. intros r Hr. lia.
Qed.

Lemma time_ordered_snoc (l : list PingResult) (r : PingResult) (t : Z) :
  time_ordered l t -> timestamp r = t -> time_ordered (l ++ [r]) t.
Proof.
  intros [Hs Hb] Hr. split.
  - apply StronglySorted_app_2.
    + intros x1 x2 H1 H2. apply list_elem_of_singleton in H2. subst x2.
      rewrite Forall_forall in Hb. rewrite Hr. apply Hb, H1.
    + exact Hs.
    + repeat constructor.
  - apply Forall_app. split; [exact Hb |].
    constructor; [lia | constructor].
Qed.

Lemma step_time_ordered (s : State) (e : Event) :
  time_ordered (pushed s) (now s) ->
  time_ordered (pushed (step s e)) (now (step s e)).
Proof.
  intros H. unfold pushed in *.
  destruct e as [intervalMs | | ms | p response | config]; cbn [step].
  - destruct (startMonitoring_fields intervalMs s) as (_ & R2 & _ & _ & R5 & _).
    rewrite R2, R5. exact H.
  - destruct (stopMonitoring_fields s) as (_ & R2 & _ & _ & R5 & _).
    rewrite R2, R5. exact H.
  - destruct (advance_frame ms s) as (_ & R2 & _).
    rewrite R2, advance_now.
    eapply time_ordered_later; [| exact H]. lia.
  - destruct (settle_cases p response s) as (_ & _ & _ & R4 & _).
    destruct (settle_effect p response s)
      as (_ & _ & _ & [(R1 & _) | (pr & r & _ & _ & Hr & R1 & _)]).
    + rewrite R1, R4. exact H.
    + rewrite R1, R4, map_app. cbn [map fst].
      apply time_ordered_snoc; [exact H |].
      eapply measureLatency_timestamp, Hr.
  - exact H.
Qed.

(** X5. The history is in time order: in every state a run can reach, the
    timestamps of the results never decrease from one entry to the next,
    and none is later than the clock. *)
Theorem history_is_in_time_order :
  forall tauri native config database events,
    let s := run events (init tauri native config database) in
    StronglySorted (fun earlier later => timestamp earlier <= timestamp later)
      (results s) /\
    Forall (fun r => 0 <= timestamp r <= now s) (results s).
Proof.
  intros tauri native config database events s.
  assert (H : time_ordered (pushed s) (now s) /\ 
              Forall (fun r => 0 <= timestamp r) (pushed s) /\ 0 <= now s).
  { subst s. induction events as [| e events IH] using rev_ind.
    - cbn. repeat split; try constructor. lia.
    - rewrite run_app. cbn [run fold_left].
      set (s := run events (init tauri native config database)) in *.
      destruct IH as (Ht & Hpos & Hnow).
      split; [apply step_time_ordered, Ht |].
      unfold pushed in *.
      destruct e as [intervalMs | | ms | p response | partial]; cbn [step].
      + destruct (startMonitoring_fields intervalMs s) as (_ & R2 & _ & _ & R5 & _).
        rewrite R2, R5. auto.
      + destruct (stopMonitoring_fields s) as (_ & R2 & _ & _ & R5 & _).
        rewrite R2, R5. auto.
      + destruct (advance_frame ms s) as (_ & R2 & _).
        rewrite R2, advance_now. split; [exact Hpos | lia].
      + destruct (settle_cases p response s) as (_ & _ & _ & R4 & _).
        destruct (settle_effect p response s)
          as (_ & _ & _ & [(R1 & _) | (pr & r & _ & _ & Hr & R1 & _)]).
        * rewrite R1, R4. auto.
        * rewrite R1, R4, map_app. split; [| exact Hnow].
          apply Forall_app. split; [exact Hpos |].
          constructor; [| constructor]. cbn [fst].
          rewrite (measureLatency_timestamp _ _ _ _ _ Hr). exact Hnow.
      + auto. }
  destruct H as ((Hs & Hb) & Hpos & _).
  assert (Hinv : invariant s) by apply run_invariant, init_invariant.
  rewrite (inv_history _ Hinv), slice_neg50_drop.
  rewrite <- (take_drop (length (pushed s) - 50) (pushed s)) in Hs, Hb, Hpos.
  apply StronglySorted_app_1_r in Hs.
  apply Forall_app in Hb as [_ Hb]. apply Forall_app in Hpos as [_ Hpos].
  split; [exact Hs |].
  rewrite Forall_forall in *. intros r Hr. split; auto.
Qed.

(** ** Latencies measured on the web transports *)

Lemma measureLatency_web (via : Transport) (start t : Z) (response : Settled Z)
    (r : PingResult) :
  via <> TauriInvoke ->
  fst (measureLatency via start t response) = Next r ->
  status r = StatusError \/
  (latencyMs r = Some (t - start) /\ timestamp r = t).
Proof.
  destruct via, response; cbn; intros Hvia [= <-];
    first [congruence | left; reflexivity | right; split; reflexivity].
Qed.

Lemma started_insert_settled (l : list Probe) (p : nat) (pr : Probe) :
  l !! p = Some pr ->
  map started (<[p := settled_probe pr]> l) = map started l.
Proof.
  intros Hl. revert p Hl. induction l as [| a l IH]; intros [| p] Hl;
    try discriminate; cbn in *.
  - injection Hl as ->. reflexivity.
  - f_equal. apply IH, Hl.
Qed.

Lemma stopMonitoring_platform (s : State) :
  isTauri (stopMonitoring s) = isTauri s /\
  isNativePlatform (stopMonitoring s) = isNativePlatform s.
Proof.
  unfold stopMonitoring. destruct (pollingSubscription s); split; reflexivity.
Qed.

Lemma web_probes_later (s : State) (t : Z) :
  now s <= t -> web_probes_ok s -> web_probes_ok (set_now t s).
Proof.
  intros Hle [Hw Hp]. split; [exact Hw |]. state_fields.
  eapply Forall_impl; [exact Hp |]. cbn. intros pr [H1 H2]. split; [exact H1 | lia].
Qed.

Lemma fire_web_probes (s : State) (id : nat) :
  web_probes_ok s -> web_probes_ok (fire s id).
Proof.
  intros [Hw Hp]. unfold fire.
  destruct (subscriptions s !! id) as [sub |]; [| split; assumption].
  destruct (closed sub); [split; assumption |].
  destruct (due sub) as [t |]; [| split; assumption].
  destruct (t <=? now s); [| split; assumption].
  split; [exact Hw |]. unfold tick. state_fields.
  apply Forall_app. split; [exact Hp |].
  constructor; [| constructor]. cbn. rewrite Hw. split; [| lia].
  destruct (isNativePlatform s); discriminate.
Qed.

Lemma advance_web_probes (ms : Z) (s : State) :
  web_probes_ok s -> web_probes_ok (advance ms s).
Proof.
  assert (Hfold : forall ids s, web_probes_ok s -> web_probes_ok (fold_left fire ids s)).
  { intros ids. induction ids as [| a ids IH]; intros s' H; [exact H |].
    cbn. apply IH, fire_web_probes, H. }
  assert (Helapse : forall n s, web_probes_ok s -> web_probes_ok (elapse n s)).
  { intros n. induction n as [| n IH]; intros s' H; [exact H |].
    cbn. apply IH, Hfold, web_probes_later; [lia | exact H]. }
  intros H. apply Helapse, Hfold, H.
Qed.

Lemma latency_is_elapsed_grow (s s' : State) (r : PingResult) :
  (forall t0, t0 ∈ map started (probes s) -> t0 ∈ map started (probes s')) ->
  latency_is_elapsed s r -> latency_is_elapsed s' r.
Proof.
  intros Hsub [He | (t0 & Hin & Hl & Hpos)]; [left; exact He |].
  right. exists t0. auto.
Qed.

Lemma step_web (s : State) (e : Event) :
  web_probes_ok s /\ Forall (latency_is_elapsed s) (pushed s) ->
  web_probes_ok (step s e) /\ Forall (latency_is_elapsed (step s e)) (pushed (step s e)).
Proof.
  intros [Hw Hl]. unfold pushed in *.
  destruct e as [intervalMs | | ms | p response | partial]; cbn [step].
  - destruct (startMonitoring_fields intervalMs s) as (_ & R2 & R3 & _ & R5 & _).
    destruct (startMonitoring_platform intervalMs s) as (Q1 & _).
    unfold web_probes_ok. rewrite R2, R3, R5, Q1. split; [exact Hw |].
    eapply Forall_impl; [exact Hl |]. intros r.
    apply latency_is_elapsed_grow. rewrite R3. auto.
  - destruct (stopMonitoring_fields s) as (_ & R2 & R3 & _ & R5 & _).
    destruct (stopMonitoring_platform s) as (Q1 & _).
    unfold web_probes_ok. rewrite R2, R3, R5, Q1. split; [exact Hw |].
    eapply Forall_impl; [exact Hl |]. intros r.
    apply latency_is_elapsed_grow. rewrite R3. auto.
  - split; [apply advance_web_probes, Hw |].
    destruct (advance_frame ms s)
      as (_ & R2 & _ & _ & _ & _ & _ & _ & _ & _ & made & R11).
    rewrite R2. eapply Forall_impl; [exact Hl |]. intros r.
    apply latency_is_elapsed_grow. rewrite R11, map_app.
    intros t0 Ht0. apply elem_of_app. left. exact Ht0.
  - destruct (settle_cases p response s) as (_ & _ & _ & R4 & _).
    destruct Hw as [Hw Hp].
    destruct (settle_effect p response s)
      as (Q1 & _ & Hprobes & Hcalls).
    assert (Hstarted : map started (probes (settle p response s)) =
                       map started (probes s)).
    { destruct Hprobes as [-> | (pr & Hpr & _ & ->)]; [reflexivity |].
      apply started_insert_settled, Hpr. }
    assert (Hw' : web_probes_ok (settle p response s)).
    { split; [rewrite Q1; exact Hw |]. rewrite R4.
      destruct Hprobes as [-> | (pr & Hpr & _ & ->)]; [exact Hp |].
      apply Forall_insert; [exact Hp |].
      rewrite Forall_lookup in Hp. exact (Hp p pr Hpr). }
    split; [exact Hw' |].
    destruct Hcalls as [(R1 & _) | (pr & r & Hpr & _ & Hr & R1 & _)].
    + rewrite R1. eapply Forall_impl; [exact Hl |]. intros r.
      apply latency_is_elapsed_grow. rewrite Hstarted. auto.
    + rewrite R1, map_app. apply Forall_app. split.
      * eapply Forall_impl; [exact Hl |]. intros r0.
        apply latency_is_elapsed_grow. rewrite Hstarted. auto.
      * constructor; [| constructor]. cbn [fst].
        rewrite Forall_lookup in Hp. destruct (Hp p pr Hpr) as [Hvia Hle].
        destruct (measureLatency_web _ _ _ _ _ Hvia Hr) as [He | [Hlat Hts]];
          [left; exact He | right].
        exists (started pr). rewrite Hstarted, Hts.
        split; [| split; [exact Hlat | lia]].
        apply list_elem_of_In, List.in_map, list_elem_of_In.
        eapply list_elem_of_lookup_2, Hpr.
  - split; [exact Hw | exact Hl].
Qed.

(** X6. Off Tauri, every Ok measurement in the history carries a real
    elapsed time: its latency is its timestamp minus the start time of one
    of the probes made, and it is never negative. *)
Theorem web_latency_is_elapsed_time :
  forall native config database events,
    let s := run events (init false native config database) in
    Forall (latency_is_elapsed s) (results s) /\
    Forall (fun r => forall l, latencyMs r = Some l -> 0 <= l) (results s).
Proof.
  intros native config database events s.
  assert (H : web_probes_ok s /\ Forall (latency_is_elapsed s) (pushed s)).
  { subst s. induction events as [| e events IH] using rev_ind.
    - split; [split; [reflexivity | constructor] | constructor].
    - rewrite run_app. cbn [run fold_left]. apply step_web, IH. }
  destruct H as [_ Hl].
  assert (Hinv : invariant s) by apply run_invariant, init_invariant.
  assert (Hres : Forall (latency_is_elapsed s) (results s)).
  { rewrite (inv_history _ Hinv), slice_neg50_drop. apply Forall_drop, Hl. }
  split; [exact Hres |].
  pose proof (inv_measurements _ Hinv) as Hm.
  assert (Hmres : Forall measurement_ok (results s)).
  { rewrite (inv_history _ Hinv), slice_neg50_drop. apply Forall_drop, Hm. }
  rewrite Forall_forall in *. intros r Hr l Hlat.
  destruct (Hres r Hr) as [He | (t0 & _ & Hl0 & Hpos)].
  - exfalso. destruct (Hmres r Hr) as [Hok _].
    rewrite He in Hok. assert (StatusError = StatusOk) by (apply Hok; eauto).
    discriminate.
  - rewrite Hlat in Hl0. injection Hl0 as ->. exact Hpos.
Qed.

(** ** Deliveries and settled probes *)

Lemma settled_insert (l : list Probe) (p : nat) (pr : Probe) :
  l !! p = Some pr -> pending pr = true ->
  length (filter (fun x => pending x = false) (<[p := settled_probe pr]> l)) =
    S (length (filter (fun x => pending x = false) l)).
Proof.
  revert p. induction l as [| a l IH]; intros [| p] Hl Hpen; try discriminate;
    cbn in Hl.
  - injection Hl as ->. cbn [list_insert insert].
    rewrite !filter_cons. cbn [pending settled_probe].
    rewrite decide_True by reflexivity.
    rewrite decide_False by (rewrite Hpen; discriminate). reflexivity.
  - change (<[S p := settled_probe pr]> (a :: l))
      with (a :: <[p := settled_probe pr]> l).
    rewrite !filter_cons. destruct (decide (pending a = false)); cbn [length];
      rewrite (IH p Hl Hpen); reflexivity.
Qed.

Lemma step_settled (s : State) (e : Event) :
  (length (pushed s) <= settled_count s)%nat ->
  (length (pushed (step s e)) <= settled_count (step s e))%nat.
Proof.
  unfold pushed, settled_count. rewrite !length_map. intros H.
  destruct e as [intervalMs | | ms | p response | partial]; cbn [step].
  - destruct (startMonitoring_fields intervalMs s) as (_ & R2 & R3 & _).
    rewrite R2, R3. exact H.
  - destruct (stopMonitoring_fields s) as (_ & R2 & R3 & _).
    rewrite R2, R3. exact H.
  - destruct (advance_frame ms s)
      as (_ & R2 & _ & _ & _ & _ & _ & _ & _ & _ & made & R11).
    rewrite R2, R11, filter_app, length_app. lia.
  - destruct (settle_effect p response s)
      as (_ & _ & Hprobes & [(R1 & _) | (pr & r & Hpr & Hpen & _ & R1 & _ & R3)]).
    + rewrite R1. destruct Hprobes as [-> | (pr & Hpr & Hpen & ->)]; [exact H |].
      rewrite (settled_insert _ _ _ Hpr Hpen). lia.
    + rewrite R1, R3, (settled_insert _ _ _ Hpr Hpen), length_app. cbn. lia.
  - exact H.
Qed.

(** X7. A probe is published at most once and only after its promise has
    settled: in every state a run can reach, the number of measurements
    handed on is at most the number of settled probes, itself at most the
    number of probes made. *)
Theorem deliveries_bounded_by_settled_probes :
  forall tauri native config database events,
    let s := run events (init tauri native config database) in
    (length (pushed s) <= settled_count s)%nat /\
    (settled_count s <= length (probes s))%nat.
Proof.
  intros tauri native config database events s. split.
  - subst s. induction events as [| e events IH] using rev_ind.
    + cbn. lia.
    + rewrite run_app. cbn [run fold_left]. apply step_settled, IH.
  - apply length_filter.
Qed.

(** ** After a restart *)

Lemma fire_listens (n : nat) (s : State) (id : nat) :
  listens_from n s -> listens_from n (fire s id).
Proof.
  intros [Hlen Hl]. unfold fire.
  destruct (subscriptions s !! id) as [sub |] eqn:Hsub; [| split; assumption].
  destruct (closed sub); [split; assumption |].
  destruct (due sub) as [t |]; [| split; assumption].
  destruct (t <=? now s); [| split; assumption].
  unfold tick. split; state_fields.
  - rewrite length_app. lia.
  - intros id' sub' q Hl' Hc Hi.
    destruct (decide (id = id')) as [<- | Hne].
    + rewrite list_lookup_insert_eq in Hl' by (eapply lookup_lt_Some, Hsub).
      injection Hl' as <-. cbn in Hi. injection Hi as <-. exact Hlen.
    + rewrite list_lookup_insert_ne in Hl' by assumption. eauto.
Qed.

Lemma advance_listens (n : nat) (ms : Z) (s : State) :
  listens_from n s -> listens_from n (advance ms s).
Proof.
  assert (Hfold : forall ids s, listens_from n s -> listens_from n (fold_left fire ids s)).
  { intros ids. induction ids as [| a ids IH]; intros s' H; [exact H |].
    cbn. apply IH, fire_listens, H. }
  assert (Helapse : forall k s, listens_from n s -> listens_from n (elapse k s)).
  { intros k. induction k as [| k IH]; intros s' H; [exact H |].
    cbn. apply IH, Hfold. exact H. }
  intros H. apply Helapse, Hfold, H.
Qed.

Lemma unsubscribe_listens (n : nat) (subs : list Subscription) (cur : nat) :
  (forall id sub q, subs !! id = Some sub -> closed sub = false ->
                    inner sub = Some q -> (n <= q)%nat) ->
  forall id sub q, alter unsubscribe cur subs !! id = Some sub ->
                   closed sub = false -> inner sub = Some q -> (n <= q)%nat.
Proof.
  intros H id sub q Hl Hc Hi.
  destruct (decide (cur = id)) as [-> | Hne].
  - rewrite list_lookup_alter_eq in Hl.
    destruct (subs !! id); cbn in Hl; [| discriminate].
    injection Hl as <-. discriminate.
  - rewrite list_lookup_alter_ne in Hl by assumption. eauto.
Qed.

Lemma stopMonitoring_listens (n : nat) (s : State) :
  listens_from n s -> listens_from n (stopMonitoring s).
Proof.
  intros [Hlen Hl].
  destruct (stopMonitoring_fields s) as (_ & _ & R3 & _ & _ & _ & _ & _ & _ & R10).
  split; [rewrite R3; exact Hlen |]. rewrite R10.
  destruct (pollingSubscription s) as [cur |]; [| exact Hl].
  apply unsubscribe_listens, Hl.
Qed.

Lemma startMonitoring_listens (n : nat) (intervalMs : option Z) (s : State) :
  listens_from n s -> listens_from n (startMonitoring intervalMs s).
Proof.
  intros H. destruct (stopMonitoring_listens n s H) as [Hlen Hl].
  destruct (stopMonitoring_fields s) as (_ & _ & R3 & _).
  destruct (startMonitoring_fields intervalMs s)
    as (_ & _ & R3' & _ & _ & _ & _ & _ & _ & R10).
  split; [rewrite R3'; rewrite <- R3; exact Hlen |]. rewrite R10.
  intros id sub q Hlook Hc Hi.
  destruct (decide (id < length (subscriptions (stopMonitoring s)))%nat).
  - rewrite lookup_app_l in Hlook by assumption. eauto.
  - rewrite lookup_app_r in Hlook by lia.
    destruct (id - length (subscriptions (stopMonitoring s)))%nat;
      cbn in Hlook; [| discriminate].
    injection Hlook as <-. discriminate.
Qed.

Lemma step_listens (n : nat) (s : State) (e : Event) :
  listens_from n s -> listens_from n (step s e).
Proof.
  intros H. destruct e as [intervalMs | | ms | p response | partial]; cbn [step].
  - apply startMonitoring_listens, H.
  - apply stopMonitoring_listens, H.
  - apply advance_listens, H.
  - destruct H as [Hlen Hl].
    destruct (settle_cases p response s)
      as (_ & _ & _ & _ & R5 & [(_ & _ & R8) | (pr & sub & r & Hrest)]).
    + split; [rewrite R5; exact Hlen | rewrite R8; exact Hl].
    + destruct Hrest as (_ & _ & _ & _ & _ & _ & _ & _ & R8).
      split; [rewrite R5; exact Hlen |]. rewrite R8.
      intros id sub' q Hlook Hc Hi.
      destruct (decide (owner pr = id)) as [Heq | Hne].
      * rewrite Heq in Hlook. rewrite list_lookup_alter_eq in Hlook.
        destruct (subscriptions s !! id); cbn in Hlook; [| discriminate].
        injection Hlook as <-. discriminate.
      * rewrite list_lookup_alter_ne in Hlook by assumption. eauto.
  - exact H.
Qed.

Lemma run_listens (n : nat) (events : list Event) (s : State) :
  listens_from n s -> listens_from n (run events s).
Proof.
  revert s. induction events as [| e events IH]; intros s H; [exact H |].
  cbn. apply IH, step_listens, H.
Qed.

Lemma settle_unheard (n p : nat) (response : Settled Z) (s : State) :
  listens_from n s -> (p < n)%nat ->
  pushed (settle p response s) = pushed s /\
  results (settle p response s) = results s /\
  db (settle p response s) = db s.
Proof.
  intros [_ Hl] Hp.
  destruct (settle_cases p response s)
    as (_ & _ & _ & _ & _ & [(R6 & R7 & _) | (pr & sub & r & Hrest)]).
  - unfold pushed. rewrite R6, R7. repeat split. apply settle_db, R7.
  - exfalso. destruct Hrest as (_ & _ & Hsub & Hc & Hi & _).
    specialize (Hl _ _ _ Hsub Hc Hi). lia.
Qed.

(** X8. What was probed before a stop or a restart is never published
    afterwards: once [stopMonitoring] or [startMonitoring] has run,
    whatever follows (new ticks, further restarts, settings changes), the
    promise of a probe made before it settles without a measurement being
    pushed or saved. *)
Theorem earlier_probes_never_publish_after_restart :
  forall tauri native config database before restart after p response,
    halting restart = true ->
    let s := run before (init tauri native config database) in
    (p < length (probes s))%nat ->
    let s' := run (restart :: after) s in
    pushed (settle p response s') = pushed s' /\
    results (settle p response s') = results s' /\
    db (settle p response s') = db s'.
Proof.
  intros tauri native config database before restart after p response
    Hhalt s Hp s'.
  assert (Hinv : invariant s) by apply run_invariant, init_invariant.
  apply (settle_unheard (length (probes s))); [| exact Hp].
  subst s'. cbn [run fold_left]. apply run_listens.
  destruct restart as [intervalMs | | ms | q r | partial]; try discriminate;
    cbn [step].
  - pose proof (startMonitoring_sole_loop intervalMs s Hinv) as (Hl & _ & Hone).
    destruct (startMonitoring_fields intervalMs s) as (_ & _ & R3 & _).
    split; [rewrite R3; lia |].
    intros id sub q Hlook Hc Hi.
    assert (id = length (subscriptions s)).
    { apply Hone. unfold is_open. rewrite Hlook, Hc. reflexivity. }
    subst id. rewrite Hl in Hlook. injection Hlook as <-. discriminate.
  - destruct (stopMonitoring_fields s) as (_ & _ & R3 & _).
    split; [rewrite R3; lia |].
    intros id sub q Hlook Hc Hi. exfalso.
    destruct (stopMonitoring_quiescent s Hinv) as [_ Hclosed].
    specialize (Hclosed id). unfold is_open in Hclosed.
    rewrite Hlook, Hc in Hclosed. discriminate.
Qed.

(** ** A negative interval *)

Lemma fire_done (s : State) (id : nat) (sub : Subscription) :
  subscriptions s !! id = Some sub -> due sub = None -> fire s id = s.
Proof.
  intros Hl Hd. unfold fire. rewrite Hl, Hd. destruct (closed sub); reflexivity.
Qed.

(** Once the timer has completed, only the clock moves. *)
Lemma elapse_done (n : nat) (s : State) (id : nat) (sub : Subscription) :
  sole_loop s id sub -> due sub = None ->
  elapse n s = set_now (now s + Z.of_nat n) s.
Proof.
  revert s. induction n as [| n IH]; intros s Hs Hd.
  - cbn. destruct s; unfold set_now; cbn. f_equal. lia.
  - cbn [elapse].
    destruct (sole_loop_set_now s id sub (now s + 1) Hs) as (Hl & Hc & Hone).
    rewrite (run_timers_single _ id Hone), (fire_done _ id sub Hl Hd).
    rewrite IH by (first [exact Hs | exact Hd]).
    unfold set_now; cbn. f_equal. lia.
Qed.

Lemma all_closed_open_ids (s : State) :
  (forall id, is_open s id = false) -> open_ids s = [].
Proof.
  intros H. unfold open_ids.
  destruct (List.filter (is_open s) (seq 0 (length (subscriptions s))))
    as [| id l] eqn:Hf; [reflexivity |].
  assert (Hin : List.In id (List.filter (is_open s)
                              (seq 0 (length (subscriptions s)))))
    by (rewrite Hf; left; reflexivity).
  apply List.filter_In in Hin as [_ Hin]. rewrite H in Hin. discriminate.
Qed.

(** X9. With a negative interval the timer fires once and completes: the
    loop makes a single probe, at the start, however long the run; when
    that probe settles its measurement is published and the stream ends,
    so that no loop is active and no further probe is made although
    [isMonitoring] still says true. *)
Theorem negative_interval_probes_once :
  forall tauri native config database events P d response d',
    P < 0 ->
    let s := run events (init tauri native config database) in
    let s1 := run [StartMonitoring (Some P); Advance d] s in
    let s2 := run [Settle (length (probes s)) response; Advance d'] s1 in
    probes s1 =
      probes s ++
        [{| transport := select_transport (isTauri s) (isNativePlatform s);
            url := pingTarget (settings s); started := now s;
            owner := length (subscriptions s); pending := true |}] /\
    length (pushed s2) = S (length (pushed s)) /\
    length (probes s2) = length (probes s1) /\
    open_ids s2 = [] /\
    isMonitoring s2 = true.
Proof.
  intros tauri native config database events P d response d' HP s s1 s2.
  assert (Hinv : invariant s) by apply run_invariant, init_invariant.
  pose proof (startMonitoring_sole_loop (Some P) s Hinv) as Hs0.
  destruct (startMonitoring_fields (Some P) s)
    as (_ & R2 & R3 & R4 & R5 & _ & _ & _ & R9 & _).
  destruct (startMonitoring_platform (Some P) s) as (Q1 & Q2).
  cbn [resolve_interval] in Hs0.
  set (s0 := startMonitoring (Some P) s) in *.
  set (id := length (subscriptions s)) in *.
  set (sub0 := {| closed := false; period := P; due := Some (now s + 0);
                  inner := None |}) in *.
  pose proof (tick_sole_loop s0 id sub0 (now s + 0) Hs0) as Hs1.
  assert (Hdue : due (rearmed sub0 (now s + 0) (length (probes s0))) = None).
  { cbn. replace (0 <=? P) with false by lia. reflexivity. }
  assert (E1 : s1 = set_now (now s0 + Z.of_nat (Z.to_nat d))
                      (tick id sub0 (now s + 0) s0)).
  { subst s1. cbn [run fold_left step]. fold s0. unfold advance.
    destruct Hs0 as (Hl & Hc & Hone).
    rewrite (run_timers_single _ id Hone).
    rewrite (fire_tick s0 id sub0 (now s + 0) Hl Hc) by (first [reflexivity | lia]).
    rewrite (elapse_done _ _ id _ Hs1 Hdue). reflexivity. }
  assert (Hp1 : probes s1 = probes s ++ [probe_at s id (now s)]).
  { rewrite E1. unfold tick. state_fields. rewrite R3.
    unfold probe_at, get_pingTarget. rewrite R4, R5, Q1, Q2. reflexivity. }
  assert (Hsole1 : sole_loop s1 id (rearmed sub0 (now s + 0) (length (probes s0)))).
  { rewrite E1. apply sole_loop_set_now, Hs1. }
  rewrite R3 in Hsole1, Hdue.
  set (sub1 := rearmed sub0 (now s + 0) (length (probes s))) in *.
  assert (Hlook : probes s1 !! length (probes s) = Some (probe_at s id (now s))).
  { rewrite Hp1, lookup_app_r by lia. rewrite Nat.sub_diag. reflexivity. }
  destruct Hsole1 as (Hl1 & Hc1 & Hone1).
  assert (Hinner : inner sub1 = Some (length (probes s))) by reflexivity.
  clearbody sub1.
  destruct (settle_listening (length (probes s)) response s1
              (probe_at s id (now s)) sub1 Hlook eq_refl Hl1 Hc1 Hinner)
    as (r & _ & Hpushed & _ & Hsubs).
  destruct (settle_cases (length (probes s)) response s1)
    as (_ & _ & R3' & _ & R5' & _).
  set (s1' := settle (length (probes s)) response s1) in *.
  assert (Hclosed : forall id', is_open s1' id' = false).
  { intros id'. unfold is_open. rewrite Hsubs. cbn [owner probe_at].
    destruct (decide (id = id')) as [<- | Hne].
    - rewrite list_lookup_alter_eq, Hl1. cbn. rewrite Hdue. reflexivity.
    - rewrite list_lookup_alter_ne by assumption.
      destruct (is_open s1 id') eqn:Hopen.
      + apply Hone1 in Hopen. congruence.
      + exact Hopen. }
  assert (E2 : s2 = set_now (now s1' + Z.of_nat (Z.to_nat d')) s1').
  { subst s2. cbn [run fold_left step]. fold s1'. apply advance_none, Hclosed. }
  split; [exact Hp1 |].
  rewrite E2. state_fields.
  split; [| split; [| split]].
  - change (pushed (set_now (now s1' + Z.of_nat (Z.to_nat d')) s1'))
      with (pushed s1').
    rewrite Hpushed, length_app. cbn [length].
    assert (Hps : pushed s1 = pushed s).
    { rewrite E1. unfold pushed, tick. state_fields. rewrite R2. reflexivity. }
    rewrite Hps. lia.
  - exact R5'.
  - apply all_closed_open_ids. exact Hclosed.
  - rewrite R3', E1. unfold tick. state_fields. exact R9.
Qed.

(** ** Settings changed while the loop runs *)

(** A loop of positive period is still the only one after any time, its
    timer set for later than the clock, its period unchanged. *)
Lemma elapse_loop (n : nat) :
  forall (s : State) (id : nat) (sub : Subscription) (t : Z),
    sole_loop s id sub -> due sub = Some t -> 0 < period sub -> now s < t ->
    exists sub' t',
      sole_loop (elapse n s) id sub' /\ due sub' = Some t' /\
      period sub' = period sub /\ now (elapse n s) < t'.
Proof.
  induction n as [n IH] using lt_wf_ind.
  intros s id sub t Hs Hd HP Hlt.
  destruct (Z_lt_le_dec (now s + Z.of_nat n) t) as [Hbefore | Hreach].
  - rewrite (elapse_wait n s id sub t Hs Hd Hbefore).
    exists sub, t. repeat split; try assumption; apply Hs.
  - set (a := Z.to_nat (t - now s)). set (b := (n - a)%nat).
    replace (elapse n s) with (elapse (a + b) s) by (f_equal; lia).
    rewrite elapse_add. subst a. rewrite (elapse_to_due s id sub t Hs Hd Hlt).
    pose proof (tick_sole_loop (set_now t s) id sub t
                  (sole_loop_set_now s id sub t Hs)) as Hs'.
    pose proof (timer_delay_positive _ HP) as HD.
    destruct (IH b ltac:(lia) _ id _ (t + timer_delay (period sub)) Hs')
      as (sub' & t' & A1 & A2 & A3 & A4).
    + cbn. replace (0 <=? period sub) with true by lia. reflexivity.
    + exact HP.
    + cbn. lia.
    + exists sub', t'. repeat split; try assumption; apply A1.
Qed.

Lemma run_timers_wait (s : State) (id : nat) (sub : Subscription) (t : Z) :
  sole_loop s id sub -> due sub = Some t -> now s < t -> run_timers s = s.
Proof.
  intros (Hl & Hc & Hone) Hd Hlt.
  rewrite (run_timers_single _ id Hone). apply (fire_wait s id sub t Hl Hd Hlt).
Qed.

(** The loop a positive interval starts, after [d] ms. *)
Lemma start_advance_loop (intervalMs : option Z) (d : Z) (s : State) :
  invariant s -> 0 < resolve_interval intervalMs s ->
  let s1 := run [StartMonitoring intervalMs; Advance d] s in
  exists sub t,
    sole_loop s1 (length (subscriptions s)) sub /\ due sub = Some t /\
    period sub = resolve_interval intervalMs s /\ now s1 < t.
Proof.
  intros Hinv HP s1. subst s1. cbn [run fold_left step].
  pose proof (startMonitoring_sole_loop intervalMs s Hinv) as Hs0.
  destruct (startMonitoring_fields intervalMs s) as (_ & _ & _ & _ & R5 & _).
  set (s0 := startMonitoring intervalMs s) in *.
  set (id := length (subscriptions s)) in *.
  set (sub0 := {| closed := false; period := _; due := _; inner := None |}) in *.
  unfold advance. destruct Hs0 as (Hl & Hc & Hone).
  rewrite (run_timers_single _ id Hone).
  rewrite (fire_tick s0 id sub0 (now s + 0) Hl Hc) by (first [reflexivity | lia]).
  pose proof (tick_sole_loop s0 id sub0 (now s + 0) (conj Hl (conj Hc Hone)))
    as Hs'.
  pose proof (timer_delay_positive _ HP) as HD.
  destruct (elapse_loop (Z.to_nat d) _ id _
              (now s + 0 + timer_delay (period sub0)) Hs')
    as (sub' & t' & A1 & A2 & A3 & A4).
  - cbn [due rearmed]. replace (0 <=? period sub0) with true by (cbn; lia).
    reflexivity.
  - exact HP.
  - change (now (tick id sub0 (now s + 0) s0)) with (now s0).
    change (period sub0) with (resolve_interval intervalMs s). lia.
  - exists sub', t'. auto.
Qed.

(** X10. A settings change reaches a running loop for the target only:
    with the change made [d1] ms into the run, the probes of the next [d2]
    ms are made at the same instants as without the change, at the
    interval fixed at the start, and each goes to the target the change
    leaves in the settings; the new interval is what a later start without
    override resolves. *)
Theorem settings_change_keeps_cadence :
  forall tauri native config database events intervalMs d1 partial d2,
    let s := run events (init tauri native config database) in
    0 < resolve_interval intervalMs s -> 0 <= d2 ->
    let base := run [StartMonitoring intervalMs; Advance d1] s in
    let plain := run [Advance d2] base in
    let changed := run [UpdateMonitoringConfig partial; Advance d2] base in
    map started (probes changed) = map started (probes plain) /\
    take (length (probes base)) (probes changed) = probes base /\
    Forall (fun pr => url pr = pingTarget (merge_config (settings s) partial))
      (drop (length (probes base)) (probes changed)) /\
    resolve_interval None changed =
      pingInterval (merge_config (settings s) partial) * 1000.
Proof.
  intros tauri native config database events intervalMs d1 partial d2 s HP Hd2
    base plain changed.
  assert (Hinv : invariant s) by apply run_invariant, init_invariant.
  destruct (start_advance_loop intervalMs d1 s Hinv HP)
    as (sub & t & Hsole & Hdue & Hper & Hnow).
  fold base in Hsole, Hnow.
  assert (Hset : settings base = settings s).
  { subst base. cbn [run fold_left step].
    destruct (advance_frame d1 (startMonitoring intervalMs s))
      as (_ & _ & _ & _ & _ & R6 & _).
    destruct (startMonitoring_fields intervalMs s) as (_ & _ & _ & R4 & _).
    rewrite R6, R4. reflexivity. }
  set (id := length (subscriptions s)) in *.
  assert (Hplain : probes plain =
            probes base ++ map (probe_at base id)
                             (tick_times t (timer_delay (period sub))
                                (now base + Z.of_nat (Z.to_nat d2)))).
  { subst plain. cbn [run fold_left step]. unfold advance.
    rewrite (run_timers_wait base id sub t Hsole Hdue Hnow).
    apply (elapse_ticks _ base id sub t Hsole Hdue); [lia | exact Hnow]. }
  set (u := updateMonitoringConfig partial base).
  assert (Hu : sole_loop u id sub) by exact Hsole.
  assert (Hchanged : probes changed =
            probes base ++ map (probe_at u id)
                             (tick_times t (timer_delay (period sub))
                                (now base + Z.of_nat (Z.to_nat d2)))).
  { subst changed. cbn [run fold_left step]. fold u. unfold advance.
    rewrite (run_timers_wait u id sub t Hu Hdue Hnow).
    apply (elapse_ticks _ u id sub t Hu Hdue); [lia | exact Hnow]. }
  rewrite Hplain, Hchanged.
  split; [| split; [| split]].
  - rewrite !map_app, !map_map. reflexivity.
  - rewrite take_app_length. reflexivity.
  - rewrite drop_app_length. apply List.Forall_map.
    apply Forall_forall. intros time _.
    change (url (probe_at u id time))
      with (pingTarget (merge_config (settings base) partial)).
    rewrite Hset. reflexivity.
  - assert (Hsc : settings changed = merge_config (settings base) partial).
    { subst changed. cbn [run fold_left step]. fold u.
      destruct (advance_frame d2 u) as (_ & _ & _ & _ & _ & R6 & _).
      rewrite R6. reflexivity. }
    cbn [resolve_interval]. unfold get_pingIntervalMs.
    rewrite Hsc, Hset. reflexivity.
Qed.

(** * Properties of the settings *)

Section SettingsProperties.

Context {Json : Type}.
Variable JSON_parse : string -> Json + string.
Variable JSON_stringify : Settings.SettingValue -> string.
Variable as_monitoringConfig : Json -> PartialMonitoringConfig.
Variable as_region : Json -> Settings.PartialRegionConfig.
Variable as_userInfo : Json -> Settings.PartialUserInfo.
Variable as_connectionInfo : Json -> Settings.PartialConnectionInfo.

Local Abbreviation update := (Settings.update JSON_stringify).
Local Abbreviation updateMonitoringConfig :=
  (Settings.updateMonitoringConfig JSON_stringify).
Local Abbreviation updateRegion := (Settings.updateRegion JSON_stringify).
Local Abbreviation updateUserInfo := (Settings.updateUserInfo JSON_stringify).
Local Abbreviation updateConnectionInfo :=
  (Settings.updateConnectionInfo JSON_stringify).
Local Abbreviation loadSettings :=
  (Settings.loadSettings Json JSON_parse as_monitoringConfig as_region
     as_userInfo as_connectionInfo).
Local Abbreviation getAllSettings := (Settings.getAllSettings Json JSON_parse).
Local Abbreviation getSetting := (Settings.getSetting Json JSON_parse).

(** The database after the write of [setSetting]. *)
Lemma setSetting_database (db : Settings.SettingsDatabase) (key : string)
    (v : Settings.SettingValue) :
  let db' := fst (Settings.setSetting JSON_stringify db key v) in
  Settings.isInitialized db' = Settings.isInitialized db /\
  Settings.execute db' = Settings.execute db /\
  Settings.select_value db' = Settings.select_value db /\
  Settings.select_all db' = Settings.select_all db /\
  Settings.executed db' =
    (if Settings.isInitialized db
     then Settings.executed db ++ [(key, JSON_stringify v)]
     else Settings.executed db) /\
  fst (snd (Settings.setSetting JSON_stringify db key v)) = Resolved tt.
Proof.
  unfold Settings.setSetting.
  destruct (Settings.isInitialized db) eqn:Hinit; cbn [negb].
  - destruct (Settings.execute db key (JSON_stringify v)); cbn; auto 10.
  - cbn. rewrite Hinit. auto 10.
Qed.

Lemma update_fields (section : Settings.AppSettings -> Settings.SettingValue)
    (a : Settings.App) :
  let v := section (Settings.current a) in
  let a' := update section a in
  Settings.current a' = Settings.replace_section (Settings.current a) v /\
  Settings.page a' =
    (if Settings.subscribed (Settings.page a)
     then Settings.page_observes (Settings.current a') (Settings.page a)
     else Settings.page a) /\
  Settings.toasts a' = Settings.toasts a /\
  Settings.database a' =
    fst (Settings.setSetting JSON_stringify (Settings.database a)
           (Settings.key_of v) v).
Proof.
  unfold Settings.update, Settings.begin_update.
  destruct (Settings.setSetting JSON_stringify (Settings.database a) _ _)
    as [db' [settled out]].
  cbn. auto.
Qed.

(** X11. An update takes effect in memory whatever the database does:
    with the database not initialised, rejecting the write or accepting
    it, the section computed from the current settings replaces that
    section and leaves the three others as they were; [setSetting] never
    rejects; and exactly when the database is initialised one write is
    issued, of the complete new section under the section's key. *)
Theorem update_applies_whatever_the_database_does :
  forall section a,
    let v := section (Settings.current a) in
    let a' := update section a in
    Settings.current a' = Settings.replace_section (Settings.current a) v /\
    Settings.executed (Settings.database a') =
      (if Settings.isInitialized (Settings.database a)
       then Settings.executed (Settings.database a) ++
              [(Settings.key_of v, JSON_stringify v)]
       else Settings.executed (Settings.database a)) /\
    fst (snd (Settings.setSetting JSON_stringify (Settings.database a)
                (Settings.key_of v) v)) = Resolved tt /\
    forall db,
      Settings.current
        (update section
           (Settings.mkApp (Settings.current a) db (Settings.lines a)
              (Settings.page a) (Settings.toasts a))) =
      Settings.current a'.
Proof.
  intros section a v a'.
  destruct (update_fields section a) as (R1 & _ & _ & R4).
  destruct (setSetting_database (Settings.database a) (Settings.key_of v) v)
    as (_ & _ & _ & _ & E & F).
  fold v a' in R1, R4. split; [exact R1 |]. split; [rewrite R4; exact E |].
  split; [exact F |].
  intros db. rewrite R1.
  destruct (update_fields section
              (Settings.mkApp (Settings.current a) db (Settings.lines a)
                 (Settings.page a) (Settings.toasts a))) as (R1' & _).
  exact R1'.
Qed.

Lemma showToast_fields (message color : string) (a : Settings.App) :
  Settings.current (Settings.showToast message color a) = Settings.current a /\
  Settings.page (Settings.showToast message color a) = Settings.page a /\
  Settings.database (Settings.showToast message color a) = Settings.database a.
Proof. repeat split. Qed.

(** ** The settings page *)

(** X12. Whatever number the interval field is given, the interval that
    [onIntervalChange] stores is that number brought into 1..60, so a
    value in range is stored as it is; the target and the other sections
    are untouched; and a monitor reading these settings resolves, without
    override, an interval of 1000 to 60000 ms. *)
Theorem interval_change_is_clamped :
  forall v a,
    let a' := Settings.onIntervalChange JSON_stringify v a in
    let config := Settings.monitoringConfig (Settings.current a') in
    pingInterval config = Z.max 1 (Z.min 60 v) /\
    1 <= pingInterval config <= 60 /\
    (1 <= v <= 60 -> pingInterval config = v) /\
    pingTarget config =
      pingTarget (Settings.monitoringConfig (Settings.current a)) /\
    Settings.region (Settings.current a') = Settings.region (Settings.current a) /\
    Settings.userInfo (Settings.current a') =
      Settings.userInfo (Settings.current a) /\
    Settings.connectionInfo (Settings.current a') =
      Settings.connectionInfo (Settings.current a) /\
    forall s, 1000 <= resolve_interval None (set_settings config s) <= 60000.
Proof.
  intros v a a' config.
  assert (Hcur : Settings.current a' =
            Settings.replace_section (Settings.current a)
              (Settings.monitoringConfig_section
                 (Settings.only_pingInterval (Settings.clamp_interval v))
                 (Settings.current a))).
  { subst a'. unfold Settings.onIntervalChange, Settings.showSavedToast.
    destruct (showToast_fields "Settings saved" "success"
                (updateMonitoringConfig
                   (Settings.only_pingInterval (Settings.clamp_interval v))
                   (if negb (Settings.clamp_interval v =? v)
                    then Settings.set_page
                           {| Settings.subscribed :=
                                Settings.subscribed (Settings.page a);
                              Settings.page_selectedTarget :=
                                Settings.page_selectedTarget (Settings.page a);
                              Settings.page_pingInterval :=
                                Settings.clamp_interval v |} a
                    else a))) as (R & _).
    rewrite R. unfold Settings.updateMonitoringConfig.
    match goal with
    | |- context [update ?sec ?x] =>
        destruct (update_fields sec x) as (R1 & _)
    end.
    rewrite R1. destruct (negb (Settings.clamp_interval v =? v)); reflexivity. }
  subst config. rewrite Hcur. cbn. unfold Settings.clamp_interval.
  repeat split; try lia.
  all: cbn; unfold get_pingIntervalMs; cbn; lia.
Qed.

(** X13. [restoreDefaults] puts back the default monitoring configuration
    whatever the settings were, and nothing else changes; the default
    target is one of the targets the page offers and the default interval
    is one the page would store unchanged. *)
Theorem restoreDefaults_restores_valid_defaults :
  forall a,
    let a' := Settings.restoreDefaults JSON_stringify a in
    Settings.monitoringConfig (Settings.current a') = DEFAULT_monitoringConfig /\
    Settings.region (Settings.current a') = Settings.region (Settings.current a) /\
    Settings.userInfo (Settings.current a') =
      Settings.userInfo (Settings.current a) /\
    Settings.connectionInfo (Settings.current a') =
      Settings.connectionInfo (Settings.current a) /\
    pingTarget (Settings.monitoringConfig (Settings.current a')) ∈
      map Settings.value Settings.PING_TARGET_OPTIONS /\
    Settings.clamp_interval
      (pingInterval (Settings.monitoringConfig (Settings.current a'))) =
      pingInterval (Settings.monitoringConfig (Settings.current a')) /\
    Settings.toasts a' = Settings.toasts a ++ [("Defaults restored", "medium")].
Proof.
  intros a a'. subst a'. unfold Settings.restoreDefaults.
  unfold Settings.updateMonitoringConfig.
  match goal with
  | |- context [update ?sec ?x] =>
      destruct (update_fields sec x) as (R1 & _ & R3 & _)
  end.
  cbn [Settings.current Settings.showToast Settings.toasts].
  rewrite R1, R3. cbn. repeat split. left.
Qed.

Lemma next_in_sync (settings : Settings.AppSettings) (a : Settings.App) :
  Settings.subscribed (Settings.page a) = true ->
  Settings.subscribed (Settings.page (Settings.next settings a)) = true /\
  Settings.page_in_sync (Settings.next settings a).
Proof.
  intros H. unfold Settings.next, Settings.page_in_sync. cbn. rewrite H.
  cbn. auto.
Qed.

Lemma update_in_sync (section : Settings.AppSettings -> Settings.SettingValue)
    (a : Settings.App) :
  Settings.subscribed (Settings.page a) = true ->
  Settings.subscribed (Settings.page (update section a)) = true /\
  Settings.page_in_sync (update section a).
Proof.
  intros H. destruct (update_fields section a) as (_ & R2 & _).
  unfold Settings.page_in_sync. rewrite R2, H. cbn. auto.
Qed.

Lemma app_step_in_sync (a : Settings.App) (e : Settings.AppEvent) :
  Settings.subscribed (Settings.page a) = true ->
  let a' := Settings.app_step Json JSON_parse JSON_stringify as_monitoringConfig
              as_region as_userInfo as_connectionInfo a e in
  Settings.subscribed (Settings.page a') = true /\ Settings.page_in_sync a'.
Proof.
  intros H. destruct e as [[v | v |] | p | p | p |]; cbn.
  - apply (update_in_sync _ a H).
  - unfold Settings.onIntervalChange, Settings.showSavedToast.
    destruct (negb (Settings.clamp_interval v =? v));
      apply update_in_sync; exact H.
  - apply (update_in_sync _ a H).
  - apply (update_in_sync _ a H).
  - apply (update_in_sync _ a H).
  - apply (update_in_sync _ a H).
  - unfold Settings.loadSettings.
    destruct (Settings.getAllSettings Json JSON_parse (Settings.database a))
      as [stored out].
    unfold Settings.page_in_sync, Settings.next. cbn. rewrite H. cbn. auto.
Qed.

(** X14. While the page is subscribed it shows what the service holds:
    after [ngOnInit] and any sequence of page actions, updates of the
    other sections and reloads, the page is still subscribed and its
    target and interval fields equal the current monitoring
    configuration. *)
Theorem subscribed_page_shows_current_settings :
  forall a events,
    let a' :=
      fold_left
        (Settings.app_step Json JSON_parse JSON_stringify as_monitoringConfig
           as_region as_userInfo as_connectionInfo)
        events (Settings.ngOnInit a) in
    Settings.subscribed (Settings.page a') = true /\
    Settings.page_selectedTarget (Settings.page a') =
      pingTarget (Settings.monitoringConfig (Settings.current a')) /\
    Settings.page_pingInterval (Settings.page a') =
      pingInterval (Settings.monitoringConfig (Settings.current a')).
Proof.
  intros a events.
  assert (H0 : Settings.subscribed (Settings.page (Settings.ngOnInit a)) = true /\
               Settings.page_in_sync (Settings.ngOnInit a))
    by (split; [reflexivity | split; reflexivity]).
  revert H0. generalize (Settings.ngOnInit a). clear a.
  induction events as [| e events IH]; intros a [Hsub Hsync]; cbn.
  - split; [exact Hsub | exact Hsync].
  - apply IH. apply app_step_in_sync, Hsub.
Qed.

(** ** Updates of the service *)

Lemma merge_config_overlay (m : MonitoringConfig)
    (c1 c2 : PartialMonitoringConfig) :
  merge_config (merge_config m c1) c2 =
    merge_config m (Settings.overlay_monitoringConfig c1 c2).
Proof.
  destruct c1 as [[t1 |] [i1 |]], c2 as [[t2 |] [i2 |]]; reflexivity.
Qed.

(** X15. Two updates of the monitoring configuration in a row leave the
    settings one update with the second partial laid over the first
    leaves: a key the second omits keeps the value the first gave it;
    repeating an update changes nothing; and the second write carries the
    complete configuration, both updates included. *)
Theorem monitoring_updates_compose :
  forall c1 c2 a,
    let twice := updateMonitoringConfig c2 (updateMonitoringConfig c1 a) in
    Settings.current twice =
      Settings.current
        (updateMonitoringConfig (Settings.overlay_monitoringConfig c1 c2) a) /\
    Settings.current (updateMonitoringConfig c1 (updateMonitoringConfig c1 a)) =
      Settings.current (updateMonitoringConfig c1 a) /\
    Settings.executed (Settings.database twice) =
      (if Settings.isInitialized (Settings.database a)
       then Settings.executed (Settings.database a) ++
              [(Settings.KEY_MONITORING_CONFIG,
                JSON_stringify
                  (Settings.MonitoringValue
                     (merge_config
                        (Settings.monitoringConfig (Settings.current a)) c1)));
               (Settings.KEY_MONITORING_CONFIG,
                JSON_stringify
                  (Settings.MonitoringValue
                     (Settings.monitoringConfig (Settings.current twice))))]
       else Settings.executed (Settings.database a)).
Proof.
  intros c1 c2 a twice. subst twice. unfold Settings.updateMonitoringConfig.
  destruct (update_fields (Settings.monitoringConfig_section c1) a)
    as (A1 & _ & _ & A4).
  destruct (update_fields (Settings.monitoringConfig_section c2)
              (update (Settings.monitoringConfig_section c1) a))
    as (B1 & _ & _ & B4).
  destruct (update_fields
              (Settings.monitoringConfig_section
                 (Settings.overlay_monitoringConfig c1 c2)) a)
    as (C1 & _).
  destruct (update_fields (Settings.monitoringConfig_section c1)
              (update (Settings.monitoringConfig_section c1) a))
    as (D1 & _).
  split; [| split].
  - rewrite B1, C1, A1. cbn. rewrite merge_config_overlay. reflexivity.
  - rewrite D1, A1. cbn. f_equal.
    destruct c1 as [[t1 |] [i1 |]]; reflexivity.
  - rewrite B4.
    match goal with
    | |- context [Settings.setSetting JSON_stringify ?d ?k ?v] =>
        destruct (setSetting_database d k v) as (I1 & _ & _ & _ & E1 & _)
    end.
    rewrite E1, A4.
    match goal with
    | |- context [Settings.setSetting JSON_stringify ?d ?k ?v] =>
        destruct (setSetting_database d k v) as (I2 & _ & _ & _ & E2 & _)
    end.
    rewrite I2, E2. rewrite B1, A1. cbn.
    destruct (Settings.isInitialized (Settings.database a));
      [rewrite <- app_assoc |]; reflexivity.
Qed.

(** X16. Each of the four updates changes its own section only: the
    settings after it are the settings before it with that section
    replaced by its merge with the partial, the three other sections as
    they were.  Two updates of different sections made one after the
    other give the same settings in either order. *)
Theorem updates_of_different_sections_commute :
  forall m r u c a,
    let before := Settings.current a in
    Settings.current (updateMonitoringConfig m a) =
      {| Settings.monitoringConfig :=
           merge_config (Settings.monitoringConfig before) m;
         Settings.region := Settings.region before;
         Settings.userInfo := Settings.userInfo before;
         Settings.connectionInfo := Settings.connectionInfo before |} /\
    Settings.current (updateRegion r a) =
      {| Settings.monitoringConfig := Settings.monitoringConfig before;
         Settings.region := Settings.merge_region (Settings.region before) r;
         Settings.userInfo := Settings.userInfo before;
         Settings.connectionInfo := Settings.connectionInfo before |} /\
    Settings.current (updateUserInfo u a) =
      {| Settings.monitoringConfig := Settings.monitoringConfig before;
         Settings.region := Settings.region before;
         Settings.userInfo :=
           Settings.merge_userInfo (Settings.userInfo before) u;
         Settings.connectionInfo := Settings.connectionInfo before |} /\
    Settings.current (updateConnectionInfo c a) =
      {| Settings.monitoringConfig := Settings.monitoringConfig before;
         Settings.region := Settings.region before;
         Settings.userInfo := Settings.userInfo before;
         Settings.connectionInfo :=
           Settings.merge_connectionInfo (Settings.connectionInfo before) c |} /\
    Settings.current (updateRegion r (updateMonitoringConfig m a)) =
      Settings.current (updateMonitoringConfig m (updateRegion r a)) /\
    Settings.current (updateUserInfo u (updateMonitoringConfig m a)) =
      Settings.current (updateMonitoringConfig m (updateUserInfo u a)) /\
    Settings.current (updateConnectionInfo c (updateMonitoringConfig m a)) =
      Settings.current (updateMonitoringConfig m (updateConnectionInfo c a)) /\
    Settings.current (updateUserInfo u (updateRegion r a)) =
      Settings.current (updateRegion r (updateUserInfo u a)) /\
    Settings.current (updateConnectionInfo c (updateRegion r a)) =
      Settings.current (updateRegion r (updateConnectionInfo c a)) /\
    Settings.current (updateConnectionInfo c (updateUserInfo u a)) =
      Settings.current (updateUserInfo u (updateConnectionInfo c a)).
Proof.
  intros m r u c a before. subst before.
  unfold Settings.updateMonitoringConfig, Settings.updateRegion,
    Settings.updateUserInfo, Settings.updateConnectionInfo.
  repeat match goal with
  | |- context [Settings.current (update ?sec ?x)] =>
      let R := fresh "R" in
      destruct (update_fields sec x) as (R & _); rewrite R; clear R
  end.
  cbn. repeat split.
Qed.

(** X17. Two updates that overlap lose one: when an update of the
    monitoring configuration and an update of the region are both called
    before either has come back from its write, the one that completes
    last puts back the settings it read at its call with only its own
    section replaced, so the other update disappears from the current
    settings although both were written to the database. *)
Theorem overlapping_updates_lose_one :
  forall m r a,
    let '(a1, pending_m) :=
      Settings.begin_update JSON_stringify
        (Settings.monitoringConfig_section m) a in
    let '(a2, pending_r) :=
      Settings.begin_update JSON_stringify (Settings.region_section r) a1 in
    let a3 := Settings.finish_update pending_m a2 in
    let a4 := Settings.finish_update pending_r a3 in
    Settings.monitoringConfig (Settings.current a3) =
      merge_config (Settings.monitoringConfig (Settings.current a)) m /\
    Settings.monitoringConfig (Settings.current a4) =
      Settings.monitoringConfig (Settings.current a) /\
    Settings.region (Settings.current a4) =
      Settings.merge_region (Settings.region (Settings.current a)) r /\
    Settings.executed (Settings.database a4) =
      (if Settings.isInitialized (Settings.database a)
       then Settings.executed (Settings.database a) ++
              [(Settings.KEY_MONITORING_CONFIG,
                JSON_stringify
                  (Settings.MonitoringValue
                     (merge_config
                        (Settings.monitoringConfig (Settings.current a)) m)));
               (Settings.KEY_REGION,
                JSON_stringify
                  (Settings.RegionValue
                     (Settings.merge_region
                        (Settings.region (Settings.current a)) r)))]
       else Settings.executed (Settings.database a)).
Proof.
  intros m r a. unfold Settings.begin_update.
  pose proof (setSetting_database (Settings.database a)
                (Settings.key_of
                   (Settings.monitoringConfig_section m (Settings.current a)))
                (Settings.monitoringConfig_section m (Settings.current a)))
    as (I1 & _ & _ & _ & E1 & _).
  destruct (Settings.setSetting JSON_stringify (Settings.database a) _ _)
    as [db1 [s1 out1]].
  cbn [Settings.current Settings.database].
  pose proof (setSetting_database db1
                (Settings.key_of
                   (Settings.region_section r (Settings.current a)))
                (Settings.region_section r (Settings.current a)))
    as (I2 & _ & _ & _ & E2 & _).
  destruct (Settings.setSetting JSON_stringify db1 _ _) as [db2 [s2 out2]].
  cbn in I1, E1, I2, E2 |- *. rewrite E2, I1, E1.
  destruct (Settings.isInitialized (Settings.database a));
    [rewrite <- app_assoc |]; repeat split.
Qed.

(** ** Loading *)

Lemma merge_stored_empty :
  Settings.merge_stored Json as_monitoringConfig as_region as_userInfo
    as_connectionInfo ∅ = Settings.DEFAULT_SETTINGS.
Proof. reflexivity. Qed.

Lemma loadSettings_current (a : Settings.App) :
  Settings.current (loadSettings a) =
    Settings.merge_stored Json as_monitoringConfig as_region as_userInfo
      as_connectionInfo (fst (getAllSettings (Settings.database a))) /\
  Settings.database (loadSettings a) = Settings.database a.
Proof.
  unfold Settings.loadSettings.
  destruct (Settings.getAllSettings Json JSON_parse (Settings.database a))
    as [stored out].
  split; reflexivity.
Qed.

(** X18. When nothing can be read, loading gives the defaults: with the
    database not initialised, the SELECT rejected, or no row stored,
    [loadSettings] replaces whatever settings the service held by
    [DEFAULT_SETTINGS], makes no write, and logs that the settings are
    loaded. *)
Theorem loadSettings_without_rows_gives_defaults :
  forall a,
    (Settings.isInitialized (Settings.database a) = false \/
     (exists err, Settings.select_all (Settings.database a) = Rejected err) \/
     Settings.select_all (Settings.database a) = Resolved []) ->
    Settings.current (loadSettings a) = Settings.DEFAULT_SETTINGS /\
    Settings.database (loadSettings a) = Settings.database a /\
    last (Settings.lines (loadSettings a)) =
      Some (Settings.console_log "SettingsService: Settings loaded").
Proof.
  intros a H.
  destruct (loadSettings_current a) as (R1 & R2).
  split; [| split; [exact R2 |]].
  - rewrite R1. unfold Settings.getAllSettings.
    destruct H as [H | [[err H] | H]]; rewrite H; cbn;
      try apply merge_stored_empty.
    destruct (Settings.isInitialized (Settings.database a)); cbn;
      apply merge_stored_empty.
    destruct (Settings.isInitialized (Settings.database a)); cbn;
      apply merge_stored_empty.
  - unfold Settings.loadSettings.
    destruct (Settings.getAllSettings Json JSON_parse (Settings.database a))
      as [stored out].
    cbn. apply last_snoc.
Qed.

(** ** Reading the stored rows *)

Lemma wellformed_values_snoc (k : string) (rows : list (string * string))
    (row : string * string) :
  Settings.wellformed_values Json JSON_parse k (rows ++ [row]) =
    Settings.wellformed_values Json JSON_parse k rows ++
      (if String.eqb (fst row) k then
         match JSON_parse (snd row) with
         | inl parsed => [parsed]
         | inr _ => []
         end
       else []).
Proof.
  unfold Settings.wellformed_values. rewrite omap_app. f_equal. cbn.
  destruct (String.eqb (fst row) k); [| reflexivity].
  destruct (JSON_parse (snd row)); reflexivity.
Qed.

Lemma collect_rows_lookup (rows : list (string * string))
    (acc : gmap string Json * list Settings.ConsoleLine) (k : string) :
  k <> "__proto__" ->
  fst (fold_left (Settings.collect_row Json JSON_parse) rows acc) !! k =
    match last (Settings.wellformed_values Json JSON_parse k rows) with
    | Some parsed => Some parsed
    | None => fst acc !! k
    end.
Proof.
  intros Hk. induction rows as [| row rows IH] using rev_ind.
  - reflexivity.
  - rewrite fold_left_app, wellformed_values_snoc. cbn [fold_left].
    unfold Settings.collect_row at 1.
    destruct (String.eqb_spec (fst row) k) as [Heq | Hne].
    + destruct (JSON_parse (snd row)) as [parsed | err]; cbn [fst snd].
      * rewrite last_snoc.
        destruct (String.eqb_spec (fst row) "__proto__") as [Hp | _];
          [congruence |].
        rewrite Heq. apply lookup_insert_eq.
      * rewrite app_nil_r. exact IH.
    + rewrite app_nil_r.
      destruct (JSON_parse (snd row)) as [parsed | err]; cbn [fst snd];
        [| exact IH].
      destruct (String.eqb (fst row) "__proto__"); [exact IH |].
      rewrite lookup_insert_ne by assumption. exact IH.
Qed.

Lemma collect_rows_warnings (rows : list (string * string))
    (acc : gmap string Json * list Settings.ConsoleLine) :
  length (snd (fold_left (Settings.collect_row Json JSON_parse) rows acc)) =
    (length (snd acc) +
     length (List.filter
               (fun row => negb (Settings.wellformed Json JSON_parse row)) rows))%nat.
Proof.
  revert acc. induction rows as [| row rows IH]; intros acc.
  - cbn. lia.
  - cbn [fold_left List.filter]. rewrite IH.
    unfold Settings.collect_row, Settings.wellformed.
    destruct (JSON_parse (snd row)); cbn [snd negb length].
    + lia.
    + rewrite length_app. cbn. lia.
Qed.

Lemma collect_rows_proto (rows : list (string * string))
    (acc : gmap string Json * list Settings.ConsoleLine) :
  fst (fold_left (Settings.collect_row Json JSON_parse) rows acc) !! "__proto__" =
    fst acc !! "__proto__".
Proof.
  revert acc. induction rows as [| row rows IH]; intros acc; [reflexivity |].
  cbn [fold_left]. rewrite IH. unfold Settings.collect_row.
  destruct (JSON_parse (snd row)); cbn [fst]; [| reflexivity].
  destruct (String.eqb_spec (fst row) "__proto__") as [Hp | Hp]; [reflexivity |].
  apply lookup_insert_ne. exact Hp.
Qed.

Lemma wellformed_values_cons (k : string) (row : string * string)
    (rows : list (string * string)) :
  Settings.wellformed_values Json JSON_parse k (row :: rows) =
    (if String.eqb (fst row) k then
       match JSON_parse (snd row) with
       | inl parsed => [parsed]
       | inr _ => []
       end
     else []) ++ Settings.wellformed_values Json JSON_parse k rows.
Proof.
  unfold Settings.wellformed_values.
  change (row :: rows) with ([row] ++ rows). rewrite omap_app. f_equal. cbn.
  destruct (String.eqb (fst row) k); [| reflexivity].
  destruct (JSON_parse (snd row)); reflexivity.
Qed.

Lemma values_of_absent (k : string) (rows : list (string * string)) :
  k ∉ map fst rows ->
  Settings.values_of k rows = [] /\
  Settings.wellformed_values Json JSON_parse k rows = [].
Proof.
  induction rows as [| row rows IH]; intros Hk; [split; reflexivity |].
  cbn [map] in Hk. apply not_elem_of_cons in Hk as [Hne Hk].
  destruct (IH Hk) as [I1 I2].
  assert (Hb : String.eqb (fst row) k = false)
    by (apply String.eqb_neq; congruence).
  split.
  - unfold Settings.values_of in *. cbn [List.filter]. rewrite Hb. exact I1.
  - rewrite wellformed_values_cons, Hb. exact I2.
Qed.

Lemma getAllSettings_lookup (db : Settings.SettingsDatabase)
    (rows : list (string * string)) (k : string) :
  Settings.isInitialized db = true ->
  Settings.select_all db = Resolved rows ->
  "__proto__" ∉ map fst rows ->
  fst (getAllSettings db) !! k =
    last (Settings.wellformed_values Json JSON_parse k rows).
Proof.
  intros Hinit Hrows Hproto. unfold Settings.getAllSettings.
  rewrite Hinit, Hrows. cbn [negb].
  destruct (decide (k = "__proto__")) as [-> | Hk].
  - rewrite collect_rows_proto.
    destruct (values_of_absent "__proto__" rows Hproto) as [_ ->].
    apply lookup_empty.
  - rewrite (collect_rows_lookup rows (∅, []) k Hk). cbn [fst].
    rewrite lookup_empty.
    destruct (last (Settings.wellformed_values Json JSON_parse k rows));
      reflexivity.
Qed.

(** X19. [getAllSettings] skips what it cannot parse and keeps the rest:
    over the rows the SELECT returns, none of key [__proto__], the value
    under a key is the parsed value of the last row of that key that
    parses, absent when there is none; and each row that does not parse
    costs one warning and nothing else. *)
Theorem getAllSettings_keeps_wellformed_rows :
  forall db rows,
    Settings.isInitialized db = true ->
    Settings.select_all db = Resolved rows ->
    "__proto__" ∉ map fst rows ->
    (forall k,
       fst (getAllSettings db) !! k =
         last (Settings.wellformed_values Json JSON_parse k rows)) /\
    length (snd (getAllSettings db)) =
      length (List.filter
                (fun row => negb (Settings.wellformed Json JSON_parse row)) rows).
Proof.
  intros db rows Hinit Hrows Hproto. split.
  - intros k. apply getAllSettings_lookup; assumption.
  - unfold Settings.getAllSettings. rewrite Hinit, Hrows. cbn [negb].
    rewrite collect_rows_warnings. reflexivity.
Qed.

(** X20. With one row per key and none of key [__proto__], the two reads
    agree: when the SELECT by key returns the values of the rows of that
    key, no key is stored twice and no row has the key [__proto__],
    [getSetting] gives for a key what [getAllSettings] holds under it, the
    parsed value of its row, or nothing when the key has no row or its
    row does not parse. *)
Theorem getSetting_agrees_with_getAllSettings :
  forall db rows k,
    Settings.isInitialized db = true ->
    Settings.select_all db = Resolved rows ->
    Settings.select_value db k = Resolved (Settings.values_of k rows) ->
    NoDup (map fst rows) ->
    "__proto__" ∉ map fst rows ->
    fst (getSetting db k) = fst (getAllSettings db) !! k.
Proof.
  intros db rows k Hinit Hall Hval Hnd Hproto.
  rewrite (getAllSettings_lookup db rows k Hinit Hall Hproto).
  unfold Settings.getSetting. rewrite Hinit, Hval.
  cbn [negb]. clear Hall Hval Hinit Hproto db.
  induction rows as [| row rows IH]; [reflexivity |].
  cbn [map] in Hnd. apply NoDup_cons in Hnd as [Hnotin Hnd].
  rewrite wellformed_values_cons.
  unfold Settings.values_of in *. cbn [List.filter].
  destruct (String.eqb_spec (fst row) k) as [Heq | Hne].
  - rewrite Heq in Hnotin.
    destruct (values_of_absent k rows Hnotin) as [V1 V2].
    rewrite V2. cbn [map].
    destruct (JSON_parse (snd row)) as [parsed | err]; reflexivity.
  - exact (IH Hnd).
Qed.

End SettingsProperties.

(** * Instances *)

(** X2 on a run of two deliveries, one accepted write each. *)
Lemma persisted_rows_follow_deliveries_witness :
  let events := [StartMonitoring (Some 1000); Advance 40; Settle 0 (Resolved 40);
                 Advance 1000; Settle 1 (Rejected "timeout")] in
  let s := run events (init true false DEFAULT_monitoringConfig working_db) in
  table (db s) = [(40, Some 40, 1, "8.8.8.8"); (1040, None, 0, "8.8.8.8")] /\
  length (table (db s)) = 2%nat.
Proof.
  intros events s.
  destruct (persisted_rows_follow_deliveries true false
              DEFAULT_monitoringConfig working_db events)
    as [Htable Hlength].
  - reflexivity.
  - intros row. reflexivity.
  - fold s in Htable, Hlength. split.
    + rewrite Htable. reflexivity.
    + rewrite Hlength. reflexivity.
Defined.

(** X3 on a table that holds one row already and gets two more, of a
    measurement that succeeded and of one that failed. *)
Lemma persisted_rows_are_coherent_witness :
  let database :=
    {| isInitialized := true; execute := fun _ => Resolved tt;
       table := [(5, Some 3, 1, "9.9.9.9")] |} in
  let events := [StartMonitoring (Some 1000); Advance 10; Settle 0 (Resolved 10);
                 Advance 1000; Settle 1 (Rejected "offline")] in
  let s := run events (init false true DEFAULT_monitoringConfig database) in
  Forall row_coherent (table database) /\
  table (db s) =
    [(5, Some 3, 1, "9.9.9.9"); (10, Some 10, 1, "8.8.8.8");
     (1010, None, 0, "8.8.8.8")] /\
  Forall row_coherent (table (db s)).
Proof.
  intros database events s.
  assert (Hbefore : Forall row_coherent (table database)).
  { apply Forall_cons; split; [| apply Forall_nil_2].
    left. split; [reflexivity | eexists; reflexivity]. }
  split; [exact Hbefore |]. split; [vm_compute; reflexivity |].
  apply (persisted_rows_are_coherent false true DEFAULT_monitoringConfig
           database events).
  exact Hbefore.
Defined.

(** X4 on a database that was never opened. *)
Lemma uninitialised_database_is_left_alone_witness :
  let database :=
    {| isInitialized := false; execute := fun _ => Rejected "not open";
       table := [] |} in
  let events := [StartMonitoring None; Advance 10; Settle 0 (Resolved 10);
                 Advance 5000; Settle 1 (Rejected "offline")] in
  let s := run events (init false false DEFAULT_monitoringConfig database) in
  db s = database /\
  Forall (fun entry => ~ persist_failure entry) (console s).
Proof.
  intros database events.
  apply (uninitialised_database_is_left_alone false false
           DEFAULT_monitoringConfig database events).
  reflexivity.
Defined.

(** X8 on a probe that answers after a stop and a new start. *)
Lemma earlier_probes_never_publish_after_restart_witness :
  let s := run [StartMonitoring (Some 1000); Advance 100]
             (init true false DEFAULT_monitoringConfig working_db) in
  let s' := run [StopMonitoring; StartMonitoring None; Advance 10] s in
  pushed (settle 0 (Resolved 5) s') = pushed s' /\
  results (settle 0 (Resolved 5) s') = results s' /\
  db (settle 0 (Resolved 5) s') = db s'.
Proof.
  apply (earlier_probes_never_publish_after_restart true false
           DEFAULT_monitoringConfig working_db
           [StartMonitoring (Some 1000); Advance 100] StopMonitoring
           [StartMonitoring None; Advance 10] 0%nat (Resolved 5)).
  - reflexivity.
  - vm_compute. lia.
Defined.

(** X9 at an interval of -5 ms. *)
Lemma negative_interval_probes_once_witness :
  let s := run [] (init false false DEFAULT_monitoringConfig working_db) in
  let s1 := run [StartMonitoring (Some (-5)); Advance 300] s in
  let s2 := run [Settle (length (probes s)) (Resolved 12); Advance 300] s1 in
  probes s1 =
    probes s ++
      [{| transport := select_transport (isTauri s) (isNativePlatform s);
          url := pingTarget (settings s); started := now s;
          owner := length (subscriptions s); pending := true |}] /\
  length (pushed s2) = S (length (pushed s)) /\
  length (probes s2) = length (probes s1) /\
  open_ids s2 = [] /\
  isMonitoring s2 = true.
Proof.
  apply (negative_interval_probes_once false false DEFAULT_monitoringConfig
           working_db [] (-5) 300 (Resolved 12) 300).
  reflexivity.
Defined.

(** X10 on a change of both keys 1500 ms into a loop of 1000 ms. *)
Lemma settings_change_keeps_cadence_witness :
  let partial := {| partial_pingTarget := Some "1.1.1.1";
                    partial_pingInterval := Some 2 |} in
  let s := init true false DEFAULT_monitoringConfig working_db in
  let base := run [StartMonitoring (Some 1000); Advance 1500] s in
  let plain := run [Advance 2000] base in
  let changed := run [UpdateMonitoringConfig partial; Advance 2000] base in
  map started (probes changed) = map started (probes plain) /\
  take (length (probes base)) (probes changed) = probes base /\
  Forall (fun pr => url pr = pingTarget (merge_config (settings s) partial))
    (drop (length (probes base)) (probes changed)) /\
  resolve_interval None changed =
    pingInterval (merge_config (settings s) partial) * 1000.
Proof.
  intros partial.
  apply (settings_change_keeps_cadence true false DEFAULT_monitoringConfig
           working_db [] (Some 1000) 1500 partial 2000).
  - reflexivity.
  - discriminate.
Defined.

(** X18 on a service holding other settings over a database that was
    never opened. *)
Lemma loadSettings_without_rows_gives_defaults_witness :
  let database :=
    {| Settings.isInitialized := false;
       Settings.execute := fun _ _ => Resolved tt;
       Settings.select_value := fun _ => Resolved [];
       Settings.select_all := Resolved [("region", "x")];
       Settings.executed := [] |} in
  let a :=
    Settings.updateMonitoringConfig (fun _ : Settings.SettingValue => "{}")
      {| partial_pingTarget := Some "9.9.9.9"; partial_pingInterval := Some 30 |}
      (Settings.fresh database) in
  let a' :=
    Settings.loadSettings string (fun text => inl text)
      (fun _ => Settings.no_monitoringConfig) (fun _ => Settings.no_region)
      (fun _ => Settings.no_userInfo) (fun _ => Settings.no_connectionInfo) a in
  Settings.current a <> Settings.DEFAULT_SETTINGS /\
  Settings.current a' = Settings.DEFAULT_SETTINGS /\
  Settings.database a' = Settings.database a /\
  last (Settings.lines a') =
    Some (Settings.console_log "SettingsService: Settings loaded").
Proof.
  intros database a a'. split; [discriminate |].
  apply (loadSettings_without_rows_gives_defaults (fun text => inl text)
           (fun _ => Settings.no_monitoringConfig) (fun _ => Settings.no_region)
           (fun _ => Settings.no_userInfo)
           (fun _ => Settings.no_connectionInfo) a).
  left. reflexivity.
Defined.

(** X19 on three rows, the second of which does not parse. *)
Lemma getAllSettings_keeps_wellformed_rows_witness :
  let parse := fun text : string =>
    if String.eqb text "" then inr "SyntaxError" else inl text in
  let rows := [("region", "1"); ("user_info", ""); ("region", "2")] in
  let database :=
    {| Settings.isInitialized := true;
       Settings.execute := fun _ _ => Resolved tt;
       Settings.select_value := fun k => Resolved (Settings.values_of k rows);
       Settings.select_all := Resolved rows;
       Settings.executed := [] |} in
  fst (Settings.getAllSettings string parse database) !! "region" = Some "2" /\
  fst (Settings.getAllSettings string parse database) !! "user_info" = None /\
  length (snd (Settings.getAllSettings string parse database)) = 1%nat.
Proof.
  intros parse rows database.
  destruct (getAllSettings_keeps_wellformed_rows parse database rows)
    as [Hlookup Hwarnings].
  - reflexivity.
  - reflexivity.
  - intros Hin. repeat (apply elem_of_cons in Hin as [Hin | Hin];
                        [discriminate Hin |]).
    inversion Hin.
  - split; [| split].
    + rewrite Hlookup. reflexivity.
    + rewrite Hlookup. reflexivity.
    + rewrite Hwarnings. reflexivity.
Defined.

(** X20 on two rows of different keys. *)
Lemma getSetting_agrees_with_getAllSettings_witness :
  let parse := fun text : string =>
    if String.eqb text "" then inr "SyntaxError" else inl text in
  let rows := [("region", "1"); ("user_info", "")] in
  let database :=
    {| Settings.isInitialized := true;
       Settings.execute := fun _ _ => Resolved tt;
       Settings.select_value := fun k => Resolved (Settings.values_of k rows);
       Settings.select_all := Resolved rows;
       Settings.executed := [] |} in
  fst (Settings.getSetting string parse database "region") =
    fst (Settings.getAllSettings string parse database) !! "region".
Proof.
  intros parse rows database.
  apply (getSetting_agrees_with_getAllSettings parse database rows "region").
  - reflexivity.
  - reflexivity.
  - reflexivity.
  - repeat constructor; intros Hin;
      repeat (apply elem_of_cons in Hin as [Hin | Hin]; [discriminate Hin |]);
      inversion Hin.
  - intros Hin. repeat (apply elem_of_cons in Hin as [Hin | Hin];
                        [discriminate Hin |]).
    inversion Hin.
Defined.
